(** * CORS middleware (lib/index.js): header negotiation, verified

    A shallow embedding of [lib/index.js]: the JavaScript values the
    configuration can hold, the six header-composition primitives,
    [applyHeaders], the [cors] dispatcher and the [middlewareWrapper]
    resolver, followed by the properties stated about them.

    Modelling conventions.
    - JavaScript values are the inductive [value]; property reads that JS
      answers with [undefined] return [Undefined].
    - An options object is a finite map from property names to values
      ([gmap string value]); a property that is absent differs from a
      property that holds [undefined], as [object-assign] sees it.
    - The request is a record: its [method] and the map of its headers
      (Node stores header names in lower case and their values as strings).
    - The response object is mutated by the code; here it is threaded
      explicitly.  [resHeaders] holds the headers other than Vary, which
      the code writes with [res.setHeader], overwriting.  The Vary header
      is written by the [vary] package alone, an external collaborator
      that merges a field into it: the response records the fields handed
      to [vary(res, field)], in order, in [varyLog], and its Vary header
      is taken to be what the package makes of them.
    - A regular expression carries its [lastIndex]; [test] on a pattern
      with the [g] or [y] flag updates it, so the options a run of [cors]
      leaves behind are part of the model ([policy_after]).
    - The continuation [next] is external as well: every call is logged with
      its argument and the response as it was at the time of the call.
    - A read of a property of [undefined] or [null] throws a [TypeError];
      fallible functions return in the [result] monad. *)

From stdpp Require Import base strings list gmap pretty.
From Stdlib Require Import Ascii String ZArith Lia.

Local Open Scope string_scope.

(** * Part I: the program

    ** JavaScript values *)

(** A regular expression object.  The code only calls [test] on it and,
    through [toString], prints it.  With the [g] or the [y] flag, [test]
    starts at [lastIndex] and stores there the end of the match it finds,
    or 0 when it finds none; without these flags it starts at 0 and leaves
    [lastIndex] alone.  [re_exec] is the matcher of the pattern: the end of
    the match found in a string when the search starts at an index. *)
Record RegExp := mkRegExp {
  re_text : string;                      (* as printed: "/source/flags" *)
  re_stateful : bool;                    (* the g or the y flag is set *)
  lastIndex : nat;
  re_exec : nat → string → option nat
}.

Definition set_lastIndex (r : RegExp) (i : nat) : RegExp :=
  {| re_text := re_text r;
     re_stateful := re_stateful r;
     lastIndex := i;
     re_exec := re_exec r |}.

(** [r.test(s)]: the answer, and the object as the call leaves it. *)
Definition test (r : RegExp) (s : string) : bool * RegExp :=
  if re_stateful r then
    match re_exec r (lastIndex r) s with
    | Some e => (true, set_lastIndex r e)
    | None => (false, set_lastIndex r 0)
    end
  else
    match re_exec r 0 s with
    | Some _ => (true, r)
    | None => (false, r)
    end.

(** The answer of [r.test(s)]. *)
Definition re_test (r : RegExp) (s : string) : bool := (test r s).1.

#[local] Set Warnings "-register-all".

Inductive value :=
| Undefined
| Null
| Bool (b : bool)
| Num (n : Z)                (* integer-valued numbers, below 1e21 in size *)
| NaN
| Str (s : string)           (* primitive string *)
| StrObj (s : string)        (* new String(s) *)
| Re (r : RegExp)
| Arr (l : list value)
| Obj                        (* a plain object without own properties *)
| Fun (arity : nat) (src : string)
      (call : option string → option (value * value)).
      (* a function; when used as origin callback, [call o] is the pair
         (err, origin) it hands to its callback, if it ever does *)

(** ToBoolean. *)
Definition truthy (v : value) : bool :=
  match v with
  | Undefined | Null | NaN => false
  | Bool b => b
  | Num n => negb (n =? 0)%Z
  | Str s => negb (String.eqb s "")
  | StrObj _ | Re _ | Arr _ | Obj | Fun _ _ _ => true
  end.

(** [a || b] *)
Definition js_or (a b : value) : value := if truthy a then a else b.

Inductive jstype := TUndefined | TObject | TBoolean | TNumber | TString | TFunction.

Definition typeof (v : value) : jstype :=
  match v with
  | Undefined => TUndefined
  | Null | StrObj _ | Re _ | Arr _ | Obj => TObject
  | Bool _ => TBoolean
  | Num _ | NaN => TNumber
  | Str _ => TString
  | Fun _ _ _ => TFunction
  end.

Definition is_number (v : value) : bool :=
  match typeof v with TNumber => true | _ => false end.

Definition is_function (v : value) : bool :=
  match typeof v with TFunction => true | _ => false end.

(** [v === s] for a primitive string [s]: only a primitive string with the
    same characters is strictly equal to it. *)
Definition strict_eq_str (v : value) (s : string) : bool :=
  match v with
  | Str s' => String.eqb s' s
  | _ => false
  end.

(** [v === true] *)
Definition strict_eq_true (v : value) : bool :=
  match v with
  | Bool true => true
  | _ => false
  end.

(** ToString, which is also what the [toString] method of every value of
    the model returns; an array prints as its elements joined by commas,
    [undefined] and [null] elements printing as nothing. *)
Fixpoint toString (v : value) : string :=
  match v with
  | Undefined => "undefined"
  | Null => "null"
  | Bool true => "true"
  | Bool false => "false"
  | Num n => pretty n
  | NaN => "NaN"
  | Str s => s
  | StrObj s => s
  | Re r => re_text r
  | Arr l =>
      (fix go (l : list value) : string :=
         match l with
         | [] => ""
         | [x] => match x with Undefined | Null => "" | _ => toString x end
         | x :: t =>
             (match x with Undefined | Null => "" | _ => toString x end)
               ++ "," ++ go t
         end) l
  | Obj => "[object Object]"
  | Fun _ src _ => src
  end.

(** One element of [Array.prototype.join]. *)
Definition join_elem (v : value) : string :=
  match v with
  | Undefined | Null => ""
  | _ => toString v
  end.

(** [l.join(sep)] *)
Fixpoint join (sep : string) (l : list value) : string :=
  match l with
  | [] => ""
  | [x] => join_elem x
  | x :: t => join_elem x ++ sep ++ join sep t
  end.

(** [v.join], as far as the code looks at it: only arrays have one. *)
Definition has_join (v : value) : bool :=
  match v with
  | Arr _ => true
  | _ => false
  end.

(** [v.join(',')] where [v.join] is truthy. *)
Definition call_join (v : value) : value :=
  match v with
  | Arr l => Str (join "," l)
  | _ => Undefined
  end.

(** [v.length] *)
Definition prop_length (v : value) : value :=
  match v with
  | Str s | StrObj s => Num (Z.of_nat (String.length s))
  | Arr l => Num (Z.of_nat (List.length l))
  | Fun n _ _ => Num (Z.of_nat n)
  | _ => Undefined
  end.

(** [String.prototype.toUpperCase] on the ASCII letters (HTTP method
    tokens are ASCII). *)
Definition upper_ascii (c : ascii) : ascii :=
  let n := nat_of_ascii c in
  if (97 <=? n)%nat && (n <=? 122)%nat then ascii_of_nat (n - 32) else c.

Fixpoint toUpperCase (s : string) : string :=
  match s with
  | EmptyString => EmptyString
  | String c t => String (upper_ascii c) (toUpperCase t)
  end.

(** ** Options, request, response *)

(** [o.k] for an options object. *)
Definition get (o : gmap string value) (k : string) : value :=
  default Undefined (o !! k).

(** [assign({}, defaults, options)]: the properties of [options] are
    copied over those of [defaults]; a source that is [undefined] or
    [null] (here [None]) is skipped. *)
Definition assign (defaults : gmap string value)
    (options : option (gmap string value)) : gmap string value :=
  match options with
  | Some o => o ∪ defaults
  | None => defaults
  end.

Definition defaults : gmap string value :=
  {[ "origin" := Str "*";
     "methods" := Str "GET,HEAD,PUT,PATCH,POST,DELETE";
     "preflightContinue" := Bool false;
     "optionsSuccessStatus" := Num 204 ]}.

Record Request := mkRequest {
  method : value;
  url : string;
  headers : gmap string string
}.

(** [req.headers[name]] *)
Definition req_header (req : Request) (name : string) : value :=
  match headers req !! name with
  | Some s => Str s
  | None => Undefined
  end.

Record Response := mkResponse {
  statusCode : value;
  resHeaders : gmap string value;   (* written by res.setHeader *)
  varyLog : list value;             (* fields merged by vary(res, field) *)
  ended : nat                       (* number of calls of res.end() *)
}.

Definition setHeader (k : string) (v : value) (res : Response) : Response :=
  {| statusCode := statusCode res;
     resHeaders := <[k := v]> (resHeaders res);
     varyLog := varyLog res;
     ended := ended res |}.

(** [vary(res, field)]: the field is handed to the package, which merges
    it into the Vary header of the response. *)
Definition vary (res : Response) (field : value) : Response :=
  {| statusCode := statusCode res;
     resHeaders := resHeaders res;
     varyLog := varyLog res ++ [field];
     ended := ended res |}.

Definition setStatusCode (v : value) (res : Response) : Response :=
  {| statusCode := v;
     resHeaders := resHeaders res;
     varyLog := varyLog res;
     ended := ended res |}.

Definition end_ (res : Response) : Response :=
  {| statusCode := statusCode res;
     resHeaders := resHeaders res;
     varyLog := varyLog res;
     ended := S (ended res) |}.

(** One call of the continuation. *)
Record NextCall := mkNextCall {
  next_arg : value;        (* [Undefined] for a call without argument *)
  next_seen : Response     (* the response at the time of the call *)
}.

(** What a request handler acts on: the response and the continuation. *)
Record World := mkWorld {
  res : Response;
  nextLog : list NextCall
}.

Definition next (arg : value) (w : World) : World :=
  {| res := res w;
     nextLog := nextLog w ++ [ {| next_arg := arg; next_seen := res w |} ] |}.

Definition on_res (f : Response → Response) (w : World) : World :=
  {| res := f (res w); nextLog := nextLog w |}.

(** ** Exceptions *)

Inductive exn := TypeError (msg : string).

Inductive result (A : Type) :=
| Ok (a : A)
| Throw (e : exn).
Arguments Ok {A} a.
Arguments Throw {A} e.

#[global] Instance result_ret : MRet result := λ A a, Ok a.

#[global] Instance result_bind : MBind result := λ A B k r,
  match r with
  | Ok a => k a
  | Throw e => Throw e
  end.

(** ** Header directives *)

(** An entry of a [headers] array: [null], an object [{key, value}], or a
    nested array of entries. *)
Inductive header :=
| HNull
| HObj (key : string) (val : value)
| HArr (l : list header).

(** ** The functions of lib/index.js *)

(** [typeof s === 'string' || s instanceof String] *)
Definition isString (s : value) : bool :=
  match s with
  | Str _ | StrObj _ => true
  | _ => false
  end.

(** [a && b] (the model's right operands have no effect, so evaluating
    them eagerly changes nothing). *)
Definition js_and (a b : value) : value := if truthy a then b else a.

(** The origin handed in is a request header value, a primitive; a
    [String] object among the allowed origins is strictly equal to no
    primitive. *)
Fixpoint isOriginAllowed (origin : value) (allowedOrigin : value) : bool :=
  match allowedOrigin with
  | Arr l =>
      (fix loop (l : list value) : bool :=
         match l with
         | [] => false
         | a :: t => if isOriginAllowed origin a then true else loop t
         end) l
  | Str s => strict_eq_str origin s
  | StrObj _ => false
  | Re r => re_test r (toString origin)
  | _ => truthy allowedOrigin
  end.

(** The allowed origin as a call of [isOriginAllowed] leaves it: the
    patterns the call tests are updated by [test]; the members of an array
    after the first one that allows the origin are not reached.  (Every
    pattern in the value is taken as an object of its own.) *)
Fixpoint allowedOrigin_after (origin : value) (allowedOrigin : value) : value :=
  match allowedOrigin with
  | Arr l =>
      Arr ((fix loop (l : list value) : list value :=
              match l with
              | [] => []
              | a :: t =>
                  if isOriginAllowed origin a then allowedOrigin_after origin a :: t
                  else allowedOrigin_after origin a :: loop t
              end) l)
  | Re r => Re (test r (toString origin)).2
  | _ => allowedOrigin
  end.

Definition configureOrigin (options : gmap string value) (req : Request)
    : list header :=
  let requestOrigin := req_header req "origin" in
  if negb (truthy (get options "origin")) || strict_eq_str (get options "origin") "*" then
    (* allow any origin *)
    [HArr [HObj "Access-Control-Allow-Origin" (Str "*")]]
  else if isString (get options "origin") then
    (* fixed origin *)
    [HArr [HObj "Access-Control-Allow-Origin" (get options "origin")];
     HArr [HObj "Vary" (Str "Origin")]]
  else
    let isAllowed := isOriginAllowed requestOrigin (get options "origin") in
    (* reflect origin *)
    [HArr [HObj "Access-Control-Allow-Origin"
             (if isAllowed then requestOrigin else Bool false)];
     HArr [HObj "Vary" (Str "Origin")]].

(** Reading [methods.join] throws when [methods] is [undefined] or
    [null]. *)
Definition configureMethods (options : gmap string value) : result header :=
  let methods := get options "methods" in
  match methods with
  | Undefined | Null =>
      Throw (TypeError "Cannot read properties of undefined (reading 'join')")
  | _ =>
      let methods := if has_join methods then call_join methods else methods in
      Ok (HObj "Access-Control-Allow-Methods" methods)
  end.

Definition configureCredentials (options : gmap string value) : header :=
  if strict_eq_true (get options "credentials") then
    HObj "Access-Control-Allow-Credentials" (Str "true")
  else HNull.

Definition configureAllowedHeaders (options : gmap string value) (req : Request)
    : list header :=
  let allowedHeaders := js_or (get options "allowedHeaders") (get options "headers") in
  let '(allowedHeaders, headers) :=
    if negb (truthy allowedHeaders) then
      (* .headers wasn't specified, so reflect the request headers *)
      (req_header req "access-control-request-headers",
       [HArr [HObj "Vary" (Str "Access-Control-Request-Headers")]])
    else if has_join allowedHeaders then (call_join allowedHeaders, [])
    else (allowedHeaders, []) in
  if truthy (js_and allowedHeaders (prop_length allowedHeaders)) then
    headers ++ [HArr [HObj "Access-Control-Allow-Headers" allowedHeaders]]
  else headers.

Definition configureExposedHeaders (options : gmap string value) : header :=
  let headers := get options "exposedHeaders" in
  if negb (truthy headers) then HNull
  else
    let headers := if has_join headers then call_join headers else headers in
    if truthy (js_and headers (prop_length headers)) then
      HObj "Access-Control-Expose-Headers" headers
    else HNull.

(** [options.maxAge.toString()] is only reached for a number or a truthy
    value, never for [undefined] or [null]. *)
Definition configureMaxAge (options : gmap string value) : header :=
  let maxAge :=
    js_and (js_or (Bool (is_number (get options "maxAge"))) (get options "maxAge"))
           (Str (toString (get options "maxAge"))) in
  if truthy (js_and maxAge (prop_length maxAge)) then
    HObj "Access-Control-Max-Age" maxAge
  else HNull.

(** [applyHeaders]: the loop over one array is the inner [fix]; a nested
    array is applied recursively, [null] is skipped. *)
Fixpoint applyHeader (h : header) (res : Response) : Response :=
  match h with
  | HNull => res
  | HArr l =>
      (fix loop (l : list header) (res : Response) : Response :=
         match l with
         | [] => res
         | h :: t => loop t (applyHeader h res)
         end) l res
  | HObj k v =>
      if String.eqb k "Vary" && truthy v then vary res v
      else if truthy v then setHeader k v res
      else res
  end.

Definition applyHeaders (headers : list header) (res : Response) : Response :=
  applyHeader (HArr headers) res.

(** [req.method && req.method.toUpperCase && req.method.toUpperCase()] *)
Definition cors_method (req : Request) : value :=
  if truthy (method req) then
    match method req with
    | Str s | StrObj s => Str (toUpperCase s)
    | _ => Undefined
    end
  else method req.

(** The local array [headers] of [cors], as filled on either path. *)
Definition cors_headers (options : gmap string value) (req : Request)
    : result (list header) :=
  if strict_eq_str (cors_method req) "OPTIONS" then
    (* preflight *)
    methods ← configureMethods options;
    mret [HArr (configureOrigin options req);
          configureCredentials options;
          methods;
          HArr (configureAllowedHeaders options req);
          configureMaxAge options;
          configureExposedHeaders options]
  else
    (* actual response *)
    mret [HArr (configureOrigin options req);
          configureCredentials options;
          configureExposedHeaders options].

Definition cors (options : gmap string value) (req : Request) (w : World)
    : result World :=
  headers ← cors_headers options req;
  let w := on_res (applyHeaders headers) w in
  if strict_eq_str (cors_method req) "OPTIONS" then
    if truthy (get options "preflightContinue") then
      mret (next Undefined w)
    else
      (* Safari (and potentially other browsers) need content-length 0,
         for 204 or they just hang waiting for a body *)
      mret (on_res end_
             (on_res (setHeader "Content-Length" (Str "0"))
               (on_res (setStatusCode (get options "optionsSuccessStatus")) w)))
  else
    mret (next Undefined w).

(** The options as a run of [cors] leaves them: [configureOrigin], called
    once on either path and before anything can throw, calls
    [isOriginAllowed] on [options.origin] unless that is falsy, '*' or a
    string. *)
Definition policy_after (options : gmap string value) (req : Request)
    : gmap string value :=
  if negb (truthy (get options "origin")) || strict_eq_str (get options "origin") "*" then
    options
  else if isString (get options "origin") then options
  else
    <["origin" := allowedOrigin_after (req_header req "origin") (get options "origin")]>
      options.

(** The argument of [middlewareWrapper]: an options object (or nothing),
    or a function.  [f req] is the pair (err, options) the function hands
    to its callback, [None] if it never calls back. *)
Inductive OptionsSource :=
| StaticOptions (o : option (gmap string value))
| OptionsCallback (f : Request → option (value * option (gmap string value))).

Definition optionsCallback (o : OptionsSource)
    : Request → option (value * option (gmap string value)) :=
  match o with
  | OptionsCallback f => f
  | StaticOptions o => λ _, Some (Null, o)
  end.

(** [corsMiddleware], the function [middlewareWrapper(o)] returns. *)
Definition middlewareWrapper (o : OptionsSource) (req : Request) (w : World)
    : result World :=
  match optionsCallback o req with
  | None => mret w
  | Some (err, options) =>
      if truthy err then mret (next err w)
      else
        let corsOptions := assign defaults options in
        let originCallback : option (option string → option (value * value)) :=
          match get corsOptions "origin" with
          | Fun _ _ f => Some f
          | origin => if truthy origin then Some (λ _, Some (Null, origin)) else None
          end in
        match originCallback with
        | Some originCallback =>
            match originCallback (headers req !! "origin") with
            | None => mret w
            | Some (err2, origin) =>
                if truthy err2 || negb (truthy origin) then mret (next err2 w)
                else cors (<["origin" := origin]> corsOptions) req w
            end
        | None => mret (next Undefined w)
        end
  end.

(** * Part II: notions used to state the properties

    ** What a directive does to a response *)

(** The fields a directive hands to [vary], in order. *)
Fixpoint vary_fields (h : header) : list value :=
  match h with
  | HNull => []
  | HObj k v => if String.eqb k "Vary" && truthy v then [v] else []
  | HArr l =>
      (fix go (l : list header) : list value :=
         match l with
         | [] => []
         | h :: t => (vary_fields h ++ go t)%list
         end) l
  end.

(** The value a directive leaves under the header name [k], if it writes
    that header at all: the last write wins. *)
Fixpoint written (k : string) (h : header) : option value :=
  match h with
  | HNull => None
  | HObj k' v =>
      if String.eqb k' "Vary" && truthy v then None
      else if truthy v && String.eqb k' k then Some v
      else None
  | HArr l =>
      (fix go (l : list header) : option value :=
         match l with
         | [] => None
         | h :: t =>
             match go t with
             | Some v => Some v
             | None => written k h
             end
         end) l
  end.

(** ** The two paths of the dispatcher *)

(** The request is a preflight: its method, uppercased, is OPTIONS. *)
Definition is_preflight (req : Request) : Prop :=
  cors_method req = Str "OPTIONS".

(** [undefined] or [null] *)
Definition nullish (v : value) : bool :=
  match v with
  | Undefined | Null => true
  | _ => false
  end.

(** The policy has a [methods] value, as the merge over the defaults
    gives it unless the caller overrides it with [undefined] or [null]. *)
Definition methods_configured (options : gmap string value) : Prop :=
  nullish (get options "methods") = false.

(** The directives of the preflight path. *)
Definition preflight_headers (options : gmap string value) (req : Request)
    : list header :=
  [HArr (configureOrigin options req);
   configureCredentials options;
   HObj "Access-Control-Allow-Methods"
     (if has_join (get options "methods") then call_join (get options "methods")
      else get options "methods");
   HArr (configureAllowedHeaders options req);
   configureMaxAge options;
   configureExposedHeaders options].

(** The directives of the actual-request path. *)
Definition actual_headers (options : gmap string value) (req : Request)
    : list header :=
  [HArr (configureOrigin options req);
   configureCredentials options;
   configureExposedHeaders options].

(** ** A fresh response, for examples *)

Definition res0 : Response :=
  {| statusCode := Num 200; resHeaders := ∅; varyLog := []; ended := 0 |}.

Definition w0 : World := {| res := res0; nextLog := [] |}.

(** ** Origin rules *)

(** The origin rules of the specification that the composer sees besides
    the wildcard: a fixed string, a pattern, an ordered set of rules. *)
Inductive OriginRule :=
| RFixed (s : string)
| RPattern (r : RegExp)
| RSet (l : list OriginRule).

(** The configuration value that denotes a rule. *)
Fixpoint rule_value (r : OriginRule) : value :=
  match r with
  | RFixed s => Str s
  | RPattern p => Re p
  | RSet l => Arr (map rule_value l)
  end.

(** Matching as the specification words it: string equality for a string,
    the regular expression's test for a pattern, and for a set the
    disjunction over its members, left to right, stopping at the first
    member that matches. *)
Fixpoint rule_matches (origin : value) (r : OriginRule) : bool :=
  match r with
  | RFixed s => strict_eq_str origin s
  | RPattern p => re_test p (toString origin)
  | RSet l =>
      (fix any (l : list OriginRule) : bool :=
         match l with
         | [] => false
         | r :: t => rule_matches origin r || any t
         end) l
  end.

(** A rule that makes the origin primitive reflect: a pattern or a set. *)
Definition reflecting (r : OriginRule) : bool :=
  match r with
  | RFixed _ => false
  | RPattern _ | RSet _ => true
  end.

Definition any_origin : RegExp :=
  {| re_text := "/.*/";
     re_stateful := false;
     lastIndex := 0;
     re_exec := λ _ s, Some (String.length s) |}.

Definition a_com : RegExp :=
  {| re_text := "/^http:\/\/a\.com$/";
     re_stateful := false;
     lastIndex := 0;
     re_exec := λ start s,
       if (start =? 0)%nat && String.eqb s "http://a.com" then Some 12%nat else None |}.

(** ** Outcomes of the resolver *)

(** The request is handed on untouched: the response is as before and the
    continuation has been called once more, with a falsy argument. *)
Definition passed_through (w w' : World) : Prop :=
  res w' = res w ∧
  ∃ arg, truthy arg = false ∧
    nextLog w' = (nextLog w ++ [ {| next_arg := arg; next_seen := res w |} ])%list.

(** An origin callback that answers (null, false) to every origin. *)
Definition deny_all : value := Fun 2 "function (origin, cb) { cb(null, false); }" (λ _, Some (Null, Bool false)).

(** ** Max-age and allowed headers *)

(** The condition for Access-Control-Max-Age to be emitted: [maxAge] is a
    number, or it is truthy and its string form is not empty. *)
Definition max_age_emitted (maxAge : value) : bool :=
  is_number maxAge || truthy maxAge && negb (String.eqb (toString maxAge) "").

(** The allow-list the code settles on: [allowedHeaders], else the legacy
    [headers]. *)
Definition allow_list (options : gmap string value) : value :=
  js_or (get options "allowedHeaders") (get options "headers").

(** The value of the Access-Control-Allow-Headers directive, before the
    emptiness test: the request's Access-Control-Request-Headers header
    without allow-list, the allow-list otherwise, joined if it is an
    array. *)
Definition allow_headers_value (options : gmap string value) (req : Request) : value :=
  if truthy (allow_list options) then
    if has_join (allow_list options) then call_join (allow_list options)
    else allow_list options
  else req_header req "access-control-request-headers".

Definition allow_headers_vary (options : gmap string value) : list value :=
  if truthy (allow_list options) then []
  else [Str "Access-Control-Request-Headers"].

(** ** The view of a request *)

(** What the composer reads of a request: the uppercased method, the
    Origin header and the Access-Control-Request-Headers header. *)
Definition view (req : Request) : value * option string * option string :=
  (cors_method req,
   headers req !! "origin",
   headers req !! "access-control-request-headers").

(** No pattern in the value carries the [g] or the [y] flag. *)
Fixpoint stateless (v : value) : bool :=
  match v with
  | Re r => negb (re_stateful r)
  | Arr l =>
      (fix all (l : list value) : bool :=
         match l with
         | [] => true
         | a :: t => stateless a && all t
         end) l
  | _ => true
  end.

(** The options after the requests of a list were served, in order. *)
Definition policy_after_all (options : gmap string value) (reqs : list Request)
    : gmap string value :=
  fold_left policy_after reqs options.

(** The pattern [a_com] with the [g] flag: anchored at the start, it can
    only match when the search starts at index 0. *)
Definition a_com_g : RegExp :=
  {| re_text := "/^http:\/\/a\.com$/g";
     re_stateful := true;
     lastIndex := 0;
     re_exec := λ start s,
       if (start =? 0)%nat && String.eqb s "http://a.com" then Some 12%nat else None |}.

(** ** Kinds of origin value *)

(** [v instanceof RegExp] *)
Definition is_regexp (v : value) : bool :=
  match v with
  | Re _ => true
  | _ => false
  end.

(** [Array.isArray(v)] *)
Definition is_array (v : value) : bool :=
  match v with
  | Arr _ => true
  | _ => false
  end.

(** ** Flattening *)

(** The objects of a directive, nested arrays opened depth first, in
    order; [null] entries left out. *)
Fixpoint directives (h : header) : list (string * value) :=
  match h with
  | HNull => []
  | HObj k v => [(k, v)]
  | HArr l =>
      (fix go (l : list header) : list (string * value) :=
         match l with
         | [] => []
         | h :: t => (directives h ++ go t)%list
         end) l
  end.

(** What the loop of [applyHeaders] does with one object. *)
Definition applyDirective (res : Response) (d : string * value) : Response :=
  if String.eqb d.1 "Vary" && truthy d.2 then vary res d.2
  else if truthy d.2 then setHeader d.1 d.2 res
  else res.

(** The members of an origin value that are not arrays, nested arrays
    opened depth first, in order. *)
Fixpoint origin_leaves (v : value) : list value :=
  match v with
  | Arr l =>
      (fix go (l : list value) : list value :=
         match l with
         | [] => []
         | a :: t => (origin_leaves a ++ go t)%list
         end) l
  | _ => [v]
  end.

(** ** What [cors] may write *)

(** The header names [cors] writes: with [res.setHeader], and Vary
    through [vary]. *)
Definition cors_header_names : list string :=
  ["Vary";
   "Access-Control-Allow-Origin";
   "Access-Control-Allow-Credentials";
   "Access-Control-Allow-Methods";
   "Access-Control-Allow-Headers";
   "Access-Control-Max-Age";
   "Access-Control-Expose-Headers";
   "Content-Length"].

(** The origin option is treated as the wildcard by the origin primitive:
    it is falsy or the string '*'. *)
Definition origin_is_wildcard (options : gmap string value) : bool :=
  negb (truthy (get options "origin")) || strict_eq_str (get options "origin") "*".

(** The fields the origin primitive merges into Vary. *)
Definition origin_vary (options : gmap string value) : list value :=
  if origin_is_wildcard options then [] else [Str "Origin"].

(** The value of a list-or-string option as a directive carries it: an
    array joined with commas, anything else as it is. *)
Definition joined (v : value) : value :=
  if has_join v then call_join v else v.

(** An origin callback that fails for every origin, although it also
    delivers one. *)
Definition failing_origin : value :=
  Fun 2 "function (origin, cb) { cb('denied', '*'); }" (λ _, Some (Str "denied", Str "*")).

(** An origin callback that allows the origins of one list. *)
Definition allow_a_com : value :=
  Fun 2 "function (origin, cb) { cb(null, ['http://a.com']); }"
    (λ _, Some (Null, Arr [Str "http://a.com"])).

(** ** Outcomes of a request *)

(** The request was handed to the continuation: one more call of [next],
    the response not ended. *)
Definition handed_on (w w' : World) : Prop :=
  ended (res w') = ended (res w) ∧
  ∃ arg, nextLog w' = (nextLog w ++ [ {| next_arg := arg; next_seen := res w' |} ])%list.

(** The request was answered: the response ended once, [next] not
    called. *)
Definition answered (w w' : World) : Prop :=
  ended (res w') = S (ended (res w)) ∧ nextLog w' = nextLog w.

(** * Part III: properties

    ** Sanity checks of the value model *)

Example toUpperCase_options : toUpperCase "oPtions" = "OPTIONS".
Proof. reflexivity. Qed.

Example toString_array :
  toString (Arr [Num 1; Null; Arr [Str "a"; Bool true]; Num (-20)]) = "1,,a,true,-20".
Proof. vm_compute. reflexivity. Qed.

(** An array prints as [join(",")] of itself. *)
Lemma toString_Arr l : toString (Arr l) = join "," l.
Proof.
  induction l as [ | x t IH ]; [ reflexivity | ].
  destruct t as [ | y t ]; [ by destruct x | ].
  change (toString (Arr (x :: y :: t)))
    with (join_elem x ++ "," ++ toString (Arr (y :: t))).
  by rewrite IH.
Qed.

(** ** The middleware on a few requests *)

(** Default options, preflight with requested headers: wildcard origin,
    the default methods, the requested headers reflected, status 204. *)
Example preflight_defaults :
  middlewareWrapper (StaticOptions None)
    (mkRequest (Str "OPTIONS") "/"
       {[ "origin" := "http://a.com"; "access-control-request-headers" := "X-Foo,X-Bar" ]})
    w0 =
  Ok {| res := {| statusCode := Num 204;
                  resHeaders :=
                    {[ "Access-Control-Allow-Origin" := Str "*";
                       "Access-Control-Allow-Methods" := Str "GET,HEAD,PUT,PATCH,POST,DELETE";
                       "Access-Control-Allow-Headers" := Str "X-Foo,X-Bar";
                       "Content-Length" := Str "0" ]};
                  varyLog := [Str "Access-Control-Request-Headers"];
                  ended := 1 |};
        nextLog := [] |}.
Proof. vm_compute. reflexivity. Qed.

(** A fixed origin with credentials and exposed headers, actual request. *)
Example actual_fixed_origin :
  middlewareWrapper
    (StaticOptions (Some {[ "origin" := Str "http://a.com";
                            "credentials" := Bool true;
                            "exposedHeaders" := Arr [Str "X-A"; Str "X-B"] ]}))
    (mkRequest (Str "GET") "/" {[ "origin" := "http://b.com" ]})
    w0 =
  Ok (next Undefined
        {| res := {| statusCode := Num 200;
                     resHeaders :=
                       {[ "Access-Control-Allow-Origin" := Str "http://a.com";
                          "Access-Control-Allow-Credentials" := Str "true";
                          "Access-Control-Expose-Headers" := Str "X-A,X-B" ]};
                     varyLog := [Str "Origin"];
                     ended := 0 |};
           nextLog := [] |}).
Proof. vm_compute. reflexivity. Qed.

(** [methods: undefined] overrides the default, and the preflight throws
    before anything is applied; an actual request does not read it. *)
Example preflight_methods_undefined :
  middlewareWrapper (StaticOptions (Some {[ "methods" := Undefined ]}))
    (mkRequest (Str "OPTIONS") "/" ∅) w0 =
  Throw (TypeError "Cannot read properties of undefined (reading 'join')").
Proof. vm_compute. reflexivity. Qed.

(** An options callback that reports an error: the error goes to the
    continuation and the response is untouched. *)
Example options_error :
  middlewareWrapper (OptionsCallback (λ _, Some (Str "boom", None)))
    (mkRequest (Str "OPTIONS") "/" ∅) w0 =
  Ok {| res := res0; nextLog := [ {| next_arg := Str "boom"; next_seen := res0 |} ] |}.
Proof. reflexivity. Qed.

(** ** What applying a directive does to a response *)

(** Induction over directives, nested arrays included. *)
Lemma header_nested_ind (P : header → Prop) :
  P HNull →
  (∀ k v, P (HObj k v)) →
  (∀ l, Forall P l → P (HArr l)) →
  ∀ h, P h.
Proof.
  intros HN HO HA.
  fix IH 1. intros [ | k v | l ].
  - exact HN.
  - apply HO.
  - apply HA. induction l as [ | h t IHt ]; constructor; [ apply IH | exact IHt ].
Qed.

Lemma applyHeaders_nil res : applyHeaders [] res = res.
Proof. reflexivity. Qed.

Lemma applyHeaders_cons h t res :
  applyHeaders (h :: t) res = applyHeaders t (applyHeader h res).
Proof. reflexivity. Qed.

Lemma vary_fields_cons h t :
  vary_fields (HArr (h :: t)) = (vary_fields h ++ vary_fields (HArr t))%list.
Proof. reflexivity. Qed.

Lemma written_cons k h t :
  written k (HArr (h :: t)) =
  match written k (HArr t) with
  | Some v => Some v
  | None => written k h
  end.
Proof. reflexivity. Qed.

Lemma applyHeader_statusCode h :
  ∀ res, statusCode (applyHeader h res) = statusCode res.
Proof.
  induction h as [ | k v | l IH ] using header_nested_ind; intros res.
  - reflexivity.
  - simpl. destruct (String.eqb k "Vary" && truthy v); [ reflexivity | ].
    destruct (truthy v); reflexivity.
  - change (applyHeader (HArr l) res) with (applyHeaders l res).
    revert res. induction IH as [ | h t Hh _ IHt ]; intros res; [ reflexivity | ].
    rewrite applyHeaders_cons, IHt. apply Hh.
Qed.

Lemma applyHeader_ended h :
  ∀ res, ended (applyHeader h res) = ended res.
Proof.
  induction h as [ | k v | l IH ] using header_nested_ind; intros res.
  - reflexivity.
  - simpl. destruct (String.eqb k "Vary" && truthy v); [ reflexivity | ].
    destruct (truthy v); reflexivity.
  - change (applyHeader (HArr l) res) with (applyHeaders l res).
    revert res. induction IH as [ | h t Hh _ IHt ]; intros res; [ reflexivity | ].
    rewrite applyHeaders_cons, IHt. apply Hh.
Qed.

Lemma applyHeader_varyLog h :
  ∀ res, varyLog (applyHeader h res) = (varyLog res ++ vary_fields h)%list.
Proof.
  induction h as [ | k v | l IH ] using header_nested_ind; intros res.
  - simpl. by rewrite app_nil_r.
  - simpl. destruct (String.eqb k "Vary" && truthy v); [ reflexivity | ].
    destruct (truthy v); simpl; by rewrite app_nil_r.
  - change (applyHeader (HArr l) res) with (applyHeaders l res).
    revert res. induction IH as [ | h t Hh _ IHt ]; intros res.
    + simpl. by rewrite app_nil_r.
    + rewrite applyHeaders_cons, IHt, Hh, vary_fields_cons. by rewrite app_assoc.
Qed.

Lemma applyHeader_lookup h k :
  ∀ res, resHeaders (applyHeader h res) !! k =
         match written k h with
         | Some v => Some v
         | None => resHeaders res !! k
         end.
Proof.
  induction h as [ | k' v | l IH ] using header_nested_ind; intros res.
  - reflexivity.
  - simpl. destruct (String.eqb k' "Vary" && truthy v); [ reflexivity | ].
    destruct (truthy v); simpl; [ | reflexivity ].
    destruct (String.eqb_spec k' k) as [ -> | Hne ].
    + apply lookup_insert_eq.
    + by apply lookup_insert_ne.
  - change (applyHeader (HArr l) res) with (applyHeaders l res).
    revert res. induction IH as [ | h t Hh _ IHt ]; intros res; [ reflexivity | ].
    rewrite applyHeaders_cons, IHt, written_cons.
    destruct (written k (HArr t)); [ reflexivity | apply Hh ].
Qed.

(** ** The dispatcher *)

Lemma is_preflight_true req :
  is_preflight req → strict_eq_str (cors_method req) "OPTIONS" = true.
Proof. unfold is_preflight. intros ->. reflexivity. Qed.

Lemma is_preflight_false req :
  ¬ is_preflight req → strict_eq_str (cors_method req) "OPTIONS" = false.
Proof.
  unfold is_preflight. intros Hn.
  destruct (cors_method req) as [ | | | | | s | | | | | ]; try reflexivity.
  simpl. destruct (String.eqb_spec s "OPTIONS") as [ -> | ]; [ by destruct Hn | reflexivity ].
Qed.

Lemma configureMethods_configured options :
  methods_configured options →
  configureMethods options =
  Ok (HObj "Access-Control-Allow-Methods"
        (if has_join (get options "methods") then call_join (get options "methods")
         else get options "methods")).
Proof.
  unfold methods_configured, configureMethods.
  destruct (get options "methods"); simpl; intros H; try discriminate H; reflexivity.
Qed.

Lemma cors_headers_preflight options req :
  is_preflight req → methods_configured options →
  cors_headers options req = Ok (preflight_headers options req).
Proof.
  intros Hp Hm. unfold cors_headers.
  rewrite (is_preflight_true _ Hp), (configureMethods_configured _ Hm).
  reflexivity.
Qed.

Lemma cors_headers_actual options req :
  ¬ is_preflight req →
  cors_headers options req = Ok (actual_headers options req).
Proof.
  intros Hp. unfold cors_headers. rewrite (is_preflight_false _ Hp). reflexivity.
Qed.

Lemma cors_preflight options req w :
  is_preflight req → methods_configured options →
  cors options req w =
  Ok (let w1 := on_res (applyHeaders (preflight_headers options req)) w in
      if truthy (get options "preflightContinue") then next Undefined w1
      else on_res end_
             (on_res (setHeader "Content-Length" (Str "0"))
                (on_res (setStatusCode (get options "optionsSuccessStatus")) w1))).
Proof.
  intros Hp Hm. unfold cors.
  rewrite (cors_headers_preflight _ _ Hp Hm). simpl.
  rewrite (is_preflight_true _ Hp).
  destruct (truthy (get options "preflightContinue")); reflexivity.
Qed.

Lemma cors_actual options req w :
  ¬ is_preflight req →
  cors options req w =
  Ok (next Undefined (on_res (applyHeaders (actual_headers options req)) w)).
Proof.
  intros Hp. unfold cors.
  rewrite (cors_headers_actual _ _ Hp). simpl.
  rewrite (is_preflight_false _ Hp). reflexivity.
Qed.



(** ** What the primitives write *)

Lemma strict_eq_str_true v s : strict_eq_str v s = true ↔ v = Str s.
Proof.
  destruct v; simpl; try (split; [ discriminate | intros [=] ]).
  rewrite String.eqb_eq. split; [ by intros -> | by intros [= ->] ].
Qed.

Lemma is_preflight_dec req : {is_preflight req} + {¬ is_preflight req}.
Proof.
  unfold is_preflight.
  destruct (strict_eq_str (cors_method req) "OPTIONS") eqn:E.
  - left. by apply strict_eq_str_true.
  - right. intros H. apply strict_eq_str_true in H. congruence.
Qed.

Lemma written_HObj_ne k k' v : k' ≠ k → written k (HObj k' v) = None.
Proof.
  intros Hne. unfold written.
  destruct (String.eqb k' "Vary" && truthy v); [ reflexivity | ].
  apply String.eqb_neq in Hne. rewrite Hne. by rewrite andb_false_r.
Qed.

Lemma written_HObj_eq k v :
  k ≠ "Vary" → truthy v = true → written k (HObj k v) = Some v.
Proof.
  intros Hne Hv. unfold written.
  apply String.eqb_neq in Hne. rewrite Hne, Hv, String.eqb_refl. reflexivity.
Qed.

Lemma written_HObj_falsy k k' v : truthy v = false → written k (HObj k' v) = None.
Proof. intros Hv. unfold written. rewrite Hv. by rewrite andb_false_r. Qed.

Lemma written_single k h : written k (HArr [h]) = written k h.
Proof. reflexivity. Qed.

Lemma written_nil k : written k (HArr []) = None.
Proof. reflexivity. Qed.

Section Primitives.
Variable options : gmap string value.
Variable req : Request.

Lemma written_configureCredentials k :
  k ≠ "Access-Control-Allow-Credentials" →
  written k (configureCredentials options) = None.
Proof.
  intros Hk. unfold configureCredentials.
  destruct (strict_eq_true _); [ by apply written_HObj_ne | reflexivity ].
Qed.

Lemma written_methods k v :
  k ≠ "Access-Control-Allow-Methods" →
  written k (HObj "Access-Control-Allow-Methods" v) = None.
Proof. intros Hk. by apply written_HObj_ne. Qed.

Lemma written_configureAllowedHeaders k :
  k ≠ "Access-Control-Allow-Headers" →
  written k (HArr (configureAllowedHeaders options req)) = None.
Proof.
  intros Hk. unfold configureAllowedHeaders.
  destruct (negb (truthy _)); [ | destruct (has_join _) ];
    destruct (truthy (js_and _ _));
    rewrite ?app_nil_l; cbn [app];
    rewrite ?written_cons, ?written_single, ?written_nil;
    rewrite ?(written_HObj_ne k "Access-Control-Allow-Headers") by done;
    try reflexivity.
Qed.

Lemma written_configureMaxAge k :
  k ≠ "Access-Control-Max-Age" →
  written k (configureMaxAge options) = None.
Proof.
  intros Hk. unfold configureMaxAge.
  destruct (truthy (js_and _ _)); [ by apply written_HObj_ne | reflexivity ].
Qed.

Lemma written_configureExposedHeaders k :
  k ≠ "Access-Control-Expose-Headers" →
  written k (configureExposedHeaders options) = None.
Proof.
  intros Hk. unfold configureExposedHeaders.
  destruct (negb (truthy _)); [ reflexivity | ].
  destruct (truthy (js_and _ _)); [ by apply written_HObj_ne | reflexivity ].
Qed.

Lemma written_configureOrigin k :
  k ≠ "Access-Control-Allow-Origin" →
  written k (HArr (configureOrigin options req)) = None.
Proof.
  intros Hk. unfold configureOrigin.
  destruct (negb (truthy _) || strict_eq_str _ _); [ | destruct (isString _) ];
    rewrite ?written_cons, ?written_single, ?written_nil;
    rewrite ?(written_HObj_ne k "Access-Control-Allow-Origin") by done;
    reflexivity.
Qed.

Lemma vary_fields_configureCredentials :
  vary_fields (configureCredentials options) = [].
Proof. unfold configureCredentials. by destruct (strict_eq_true _). Qed.

Lemma vary_fields_configureMaxAge :
  vary_fields (configureMaxAge options) = [].
Proof. unfold configureMaxAge. by destruct (truthy (js_and _ _)). Qed.

Lemma vary_fields_configureExposedHeaders :
  vary_fields (configureExposedHeaders options) = [].
Proof.
  unfold configureExposedHeaders.
  destruct (negb (truthy _)); [ reflexivity | ].
  by destruct (truthy (js_and _ _)).
Qed.

Lemma vary_fields_preflight :
  vary_fields (HArr (preflight_headers options req)) =
  (vary_fields (HArr (configureOrigin options req)) ++
   vary_fields (HArr (configureAllowedHeaders options req)))%list.
Proof.
  unfold preflight_headers.
  rewrite !vary_fields_cons, vary_fields_configureCredentials,
    vary_fields_configureMaxAge, vary_fields_configureExposedHeaders.
  simpl. by rewrite !app_nil_r.
Qed.

Lemma vary_fields_actual :
  vary_fields (HArr (actual_headers options req)) =
  vary_fields (HArr (configureOrigin options req)).
Proof.
  unfold actual_headers.
  rewrite !vary_fields_cons, vary_fields_configureCredentials,
    vary_fields_configureExposedHeaders.
  simpl. by rewrite !app_nil_r.
Qed.

(** Only the origin primitive writes [Access-Control-Allow-Origin]. *)
Lemma written_allow_origin_preflight :
  written "Access-Control-Allow-Origin" (HArr (preflight_headers options req)) =
  written "Access-Control-Allow-Origin" (HArr (configureOrigin options req)).
Proof.
  unfold preflight_headers. rewrite !written_cons.
  rewrite written_configureExposedHeaders, written_configureMaxAge,
    written_configureAllowedHeaders, written_methods,
    written_configureCredentials by done.
  reflexivity.
Qed.

Lemma written_allow_origin_actual :
  written "Access-Control-Allow-Origin" (HArr (actual_headers options req)) =
  written "Access-Control-Allow-Origin" (HArr (configureOrigin options req)).
Proof.
  unfold actual_headers. rewrite !written_cons.
  rewrite written_configureExposedHeaders, written_configureCredentials by done.
  reflexivity.
Qed.
End Primitives.

(** ** The effect of [cors] on the response *)

(** [cors] returns unless reading [methods.join] throws; the headers of
    the response other than [Content-Length] and the fields merged into
    [Vary] are those of the composed directives. *)
Lemma cors_effect options req w :
  (is_preflight req → methods_configured options) →
  ∃ composed w',
    cors_headers options req = Ok composed ∧
    cors options req w = Ok w' ∧
    (composed = preflight_headers options req ∧ is_preflight req ∨
     composed = actual_headers options req ∧ ¬ is_preflight req) ∧
    (∀ k, k ≠ "Content-Length" →
          resHeaders (res w') !! k =
          match written k (HArr composed) with
          | Some v => Some v
          | None => resHeaders (res w) !! k
          end) ∧
    varyLog (res w') = (varyLog (res w) ++ vary_fields (HArr composed))%list.
Proof.
  intros Hm. destruct (is_preflight_dec req) as [ Hp | Hp ].
  - specialize (Hm Hp).
    eexists _, _. split; [ by apply cors_headers_preflight | ].
    split; [ by apply cors_preflight | ].
    split; [ by left | ]. cbv zeta.
    destruct (truthy (get options "preflightContinue")); simpl.
    + split; [ intros k _; apply applyHeader_lookup | apply applyHeader_varyLog ].
    + split; [ | apply applyHeader_varyLog ].
      intros k Hk. rewrite lookup_insert_ne by done. apply applyHeader_lookup.
  - eexists _, _. split; [ by apply cors_headers_actual | ].
    split; [ by apply cors_actual | ].
    split; [ by right | ]. simpl.
    split; [ intros k _; apply applyHeader_lookup | apply applyHeader_varyLog ].
Qed.

(** The [Access-Control-Allow-Origin] header and the [Vary] fields after
    [cors], in terms of the origin primitive alone. *)
Lemma cors_allow_origin options req w :
  (is_preflight req → methods_configured options) →
  ∃ w', cors options req w = Ok w' ∧
    resHeaders (res w') !! "Access-Control-Allow-Origin" =
      match written "Access-Control-Allow-Origin" (HArr (configureOrigin options req)) with
      | Some v => Some v
      | None => resHeaders (res w) !! "Access-Control-Allow-Origin"
      end ∧
    ∃ more, varyLog (res w') =
      (varyLog (res w) ++ vary_fields (HArr (configureOrigin options req)) ++ more)%list ∧
      (more = [] ∨ more = [Str "Access-Control-Request-Headers"]).
Proof.
  intros Hm.
  destruct (cors_effect options req w Hm) as (composed & w' & _ & Hc & Hcase & Hl & Hv).
  exists w'. split; [ exact Hc | ].
  rewrite Hl by done. rewrite Hv.
  destruct Hcase as [ [-> _] | [-> _] ].
  - rewrite written_allow_origin_preflight, vary_fields_preflight.
    split; [ reflexivity | ].
    exists (vary_fields (HArr (configureAllowedHeaders options req))).
    split; [ reflexivity | ].
    unfold configureAllowedHeaders.
    destruct (negb (truthy _)); [ | destruct (has_join _) ];
      destruct (truthy (js_and _ _)); auto.
  - rewrite written_allow_origin_actual, vary_fields_actual.
    split; [ reflexivity | ].
    exists []. split; [ by rewrite app_nil_r | by left ].
Qed.

(** ** Reflecting origin rules *)

Lemma OriginRule_nested_ind (P : OriginRule → Prop) :
  (∀ s, P (RFixed s)) →
  (∀ p, P (RPattern p)) →
  (∀ l, Forall P l → P (RSet l)) →
  ∀ r, P r.
Proof.
  intros HF HP HS.
  fix IH 1. intros [ s | p | l ].
  - apply HF.
  - apply HP.
  - apply HS. induction l as [ | r t IHt ]; constructor; [ apply IH | exact IHt ].
Qed.

Lemma isOriginAllowed_cons origin a t :
  isOriginAllowed origin (Arr (a :: t)) =
  if isOriginAllowed origin a then true else isOriginAllowed origin (Arr t).
Proof. reflexivity. Qed.

Lemma rule_matches_cons origin r t :
  rule_matches origin (RSet (r :: t)) =
  rule_matches origin r || rule_matches origin (RSet t).
Proof. reflexivity. Qed.

(** [isOriginAllowed] decides the specification's matching. *)
Lemma isOriginAllowed_rule origin r :
  isOriginAllowed origin (rule_value r) = rule_matches origin r.
Proof.
  induction r as [ s | p | l IH ] using OriginRule_nested_ind.
  - reflexivity.
  - reflexivity.
  - induction IH as [ | r t Hr _ IHt ]; [ reflexivity | ].
    change (rule_value (RSet (r :: t)))
      with (Arr (rule_value r :: map rule_value t)).
    rewrite isOriginAllowed_cons, rule_matches_cons, Hr.
    change (Arr (map rule_value t)) with (rule_value (RSet t)).
    rewrite IHt. by destruct (rule_matches origin r).
Qed.

Lemma reflecting_not_wildcard r :
  reflecting r = true →
  negb (truthy (rule_value r)) || strict_eq_str (rule_value r) "*" = false ∧
  isString (rule_value r) = false.
Proof. destruct r; [ discriminate | | ]; intros _; by split. Qed.

(** The origin primitive on a reflecting rule. *)
Lemma configureOrigin_reflecting options req r :
  reflecting r = true →
  get options "origin" = rule_value r →
  configureOrigin options req =
  [HArr [HObj "Access-Control-Allow-Origin"
           (if rule_matches (req_header req "origin") r
            then req_header req "origin" else Bool false)];
   HArr [HObj "Vary" (Str "Origin")]].
Proof.
  intros Hr Ho. unfold configureOrigin. rewrite Ho.
  destruct (reflecting_not_wildcard r Hr) as [-> ->].
  by rewrite isOriginAllowed_rule.
Qed.

(** [cors] under a reflecting rule. *)
Lemma cors_reflecting r options req w :
  reflecting r = true →
  get options "origin" = rule_value r →
  (is_preflight req → methods_configured options) →
  ∃ w', cors options req w = Ok w' ∧
    resHeaders (res w') !! "Access-Control-Allow-Origin" =
      (if rule_matches (req_header req "origin") r && truthy (req_header req "origin")
       then Some (req_header req "origin")
       else resHeaders (res w) !! "Access-Control-Allow-Origin") ∧
    Str "Origin" ∈ varyLog (res w').
Proof.
  intros Hr Ho Hm.
  destruct (cors_allow_origin options req w Hm) as (w' & Hc & Hl & more & Hv & _).
  exists w'. split; [ exact Hc | ].
  rewrite (configureOrigin_reflecting _ _ _ Hr Ho) in Hl, Hv.
  split.
  - rewrite Hl. rewrite written_cons, !written_single.
    change (written "Access-Control-Allow-Origin" (HObj "Vary" (Str "Origin"))) with (@None value).
    destruct (rule_matches (req_header req "origin") r); simpl andb.
    + destruct (truthy (req_header req "origin")) eqn:Ht.
      * by rewrite written_HObj_eq.
      * by rewrite written_HObj_falsy.
    + by rewrite written_HObj_falsy.
  - rewrite Hv. change (vary_fields (HArr _)) with [Str "Origin"]. set_solver.
Qed.

(** C2 (amended). For an origin rule that is a pattern or a possibly
    nested array of strings and patterns, [isOriginAllowed] is the
    left-to-right disjunction over the rule (string equality for strings,
    the pattern's test for patterns).  When the rule matches and the
    request's Origin header is a non-empty string, the response header
    Access-Control-Allow-Origin is set to that string verbatim; when the
    rule does not match, or the Origin header is absent or empty, the
    header is not written.  In every case Origin is merged into Vary. *)
Theorem C2_reflect_origin r options req w :
  reflecting r = true →
  get options "origin" = rule_value r →
  (is_preflight req → methods_configured options) →
  isOriginAllowed (req_header req "origin") (get options "origin") =
    rule_matches (req_header req "origin") r ∧
  ∃ w', cors options req w = Ok w' ∧
    resHeaders (res w') !! "Access-Control-Allow-Origin" =
      (if rule_matches (req_header req "origin") r && truthy (req_header req "origin")
       then Some (req_header req "origin")
       else resHeaders (res w) !! "Access-Control-Allow-Origin") ∧
    Str "Origin" ∈ varyLog (res w').
Proof.
  intros Hr Ho Hm. split; [ rewrite Ho; apply isOriginAllowed_rule | ].
  by apply cors_reflecting.
Qed.

Lemma C2_reflect_origin_witness :
  isOriginAllowed (req_header (mkRequest (Str "GET") "/" {[ "origin" := "http://a.com" ]}) "origin")
      (get (<["origin" := Arr [Str "http://b.com"; Re a_com]]> defaults) "origin") =
    rule_matches (req_header (mkRequest (Str "GET") "/" {[ "origin" := "http://a.com" ]}) "origin")
      (RSet [RFixed "http://b.com"; RPattern a_com]) ∧
  ∃ w', cors (<["origin" := Arr [Str "http://b.com"; Re a_com]]> defaults)
             (mkRequest (Str "GET") "/" {[ "origin" := "http://a.com" ]}) w0 = Ok w' ∧
    resHeaders (res w') !! "Access-Control-Allow-Origin" =
      (if rule_matches (req_header (mkRequest (Str "GET") "/" {[ "origin" := "http://a.com" ]}) "origin")
            (RSet [RFixed "http://b.com"; RPattern a_com])
          && truthy (req_header (mkRequest (Str "GET") "/" {[ "origin" := "http://a.com" ]}) "origin")
       then Some (req_header (mkRequest (Str "GET") "/" {[ "origin" := "http://a.com" ]}) "origin")
       else resHeaders (res w0) !! "Access-Control-Allow-Origin") ∧
    Str "Origin" ∈ varyLog (res w').
Proof.
  apply (C2_reflect_origin (RSet [RFixed "http://b.com"; RPattern a_com])).
  - reflexivity.
  - reflexivity.
  - intros _. reflexivity.
Defined.

(** C2 as worded fails when the rule matches and the Origin header is
    empty or absent: the directive's value is then the empty string or
    [undefined], both falsy, and [applyHeaders] skips it.  First a list
    whose only member equals the empty header; then a pattern that matches
    everything, on a request without Origin header. *)
Lemma C2_counterexample :
  (rule_matches (req_header (mkRequest (Str "GET") "/" {[ "origin" := "" ]}) "origin")
     (RSet [RFixed ""]) = true ∧
   ∃ w', cors (<["origin" := rule_value (RSet [RFixed ""])]> defaults)
              (mkRequest (Str "GET") "/" {[ "origin" := "" ]}) w0 = Ok w' ∧
     resHeaders (res w') !! "Access-Control-Allow-Origin" = None) ∧
  (rule_matches (req_header (mkRequest (Str "GET") "/" ∅) "origin")
     (RPattern any_origin) = true ∧
   ∃ w', cors (<["origin" := rule_value (RPattern any_origin)]> defaults)
              (mkRequest (Str "GET") "/" ∅) w0 = Ok w' ∧
     resHeaders (res w') !! "Access-Control-Allow-Origin" = None).
Proof.
  split; (split; [ reflexivity | ]); eexists; (split; [ reflexivity | ]); reflexivity.
Qed.

(** ** Wildcard origin *)

(** C3. When the resolved origin is the wildcard '*', the origin primitive
    produces the single directive Access-Control-Allow-Origin: * and no
    Vary directive, whatever the request; after [cors] the response
    carries Access-Control-Allow-Origin: *, and the only field [cors] may
    have merged into Vary is Access-Control-Request-Headers, never
    Origin. *)
Theorem C3_wildcard options req w :
  get options "origin" = Str "*" →
  (is_preflight req → methods_configured options) →
  configureOrigin options req = [HArr [HObj "Access-Control-Allow-Origin" (Str "*")]] ∧
  vary_fields (HArr (configureOrigin options req)) = [] ∧
  ∃ w', cors options req w = Ok w' ∧
    resHeaders (res w') !! "Access-Control-Allow-Origin" = Some (Str "*") ∧
    ∃ more, varyLog (res w') = (varyLog (res w) ++ more)%list ∧
            (more = [] ∨ more = [Str "Access-Control-Request-Headers"]).
Proof.
  intros Ho Hm.
  assert (configureOrigin options req =
          [HArr [HObj "Access-Control-Allow-Origin" (Str "*")]]) as Hco.
  { unfold configureOrigin. by rewrite Ho. }
  split; [ exact Hco | ]. split; [ by rewrite Hco | ].
  destruct (cors_allow_origin options req w Hm) as (w' & Hc & Hl & more & Hv & Hmore).
  exists w'. split; [ exact Hc | ].
  rewrite Hco in Hl, Hv. split; [ exact Hl | ].
  exists more. split; [ exact Hv | exact Hmore ].
Qed.

Lemma C3_wildcard_witness :
  configureOrigin defaults (mkRequest (Str "GET") "/" {[ "origin" := "http://a.com" ]}) =
    [HArr [HObj "Access-Control-Allow-Origin" (Str "*")]] ∧
  vary_fields (HArr (configureOrigin defaults
                       (mkRequest (Str "GET") "/" {[ "origin" := "http://a.com" ]}))) = [] ∧
  ∃ w', cors defaults (mkRequest (Str "GET") "/" {[ "origin" := "http://a.com" ]}) w0 = Ok w' ∧
    resHeaders (res w') !! "Access-Control-Allow-Origin" = Some (Str "*") ∧
    ∃ more, varyLog (res w') = (varyLog (res w0) ++ more)%list ∧
            (more = [] ∨ more = [Str "Access-Control-Request-Headers"]).
Proof.
  apply (C3_wildcard defaults (mkRequest (Str "GET") "/" {[ "origin" := "http://a.com" ]}) w0).
  - reflexivity.
  - intros _. reflexivity.
Defined.

(** ** The resolver *)

Lemma get_insert_eq (o : gmap string value) k v : get (<[k := v]> o) k = v.
Proof. unfold get. by rewrite lookup_insert_eq. Qed.

Lemma get_insert_ne (o : gmap string value) k k' v :
  k ≠ k' → get (<[k := v]> o) k' = get o k'.
Proof. intros Hne. unfold get. by rewrite lookup_insert_ne. Qed.

(** With a static, truthy origin the middleware runs [cors] on the merged
    options. *)
Lemma middlewareWrapper_static_origin o req w err options :
  optionsCallback o req = Some (err, options) →
  truthy err = false →
  truthy (get (assign defaults options) "origin") = true →
  is_function (get (assign defaults options) "origin") = false →
  middlewareWrapper o req w =
  cors (<["origin" := get (assign defaults options) "origin"]> (assign defaults options)) req w.
Proof.
  intros Hcb Herr Ht Hf. unfold middlewareWrapper. rewrite Hcb, Herr.
  destruct (get (assign defaults options) "origin") eqn:Ho;
    try discriminate Ht; try discriminate Hf; cbv beta iota; rewrite ?Ht; reflexivity.
Qed.

(** C4. When the options are resolved without error and the origin that
    results is falsy -- the merged [origin] option is falsy, or it is a
    function that hands a falsy error and a falsy origin to its callback --
    the continuation is called exactly once with a falsy argument and the
    response is left untouched: no header is written, nothing is merged
    into Vary.  A disallowed origin is another outcome: under a pattern or
    list rule that the request's origin does not match, [cors] runs, Origin
    is merged into Vary and Access-Control-Allow-Origin is not written. *)
Theorem C4_falsy_origin o req w err options :
  optionsCallback o req = Some (err, options) →
  truthy err = false →
  (truthy (get (assign defaults options) "origin") = false →
     ∃ w', middlewareWrapper o req w = Ok w' ∧ passed_through w w') ∧
  (∀ n src f err2 origin,
     get (assign defaults options) "origin" = Fun n src f →
     f (headers req !! "origin") = Some (err2, origin) →
     truthy err2 = false → truthy origin = false →
     ∃ w', middlewareWrapper o req w = Ok w' ∧ passed_through w w') ∧
  (∀ r,
     reflecting r = true →
     get (assign defaults options) "origin" = rule_value r →
     rule_matches (req_header req "origin") r = false →
     (is_preflight req → methods_configured (assign defaults options)) →
     ∃ w', middlewareWrapper o req w = Ok w' ∧
       Str "Origin" ∈ varyLog (res w') ∧
       resHeaders (res w') !! "Access-Control-Allow-Origin" =
         resHeaders (res w) !! "Access-Control-Allow-Origin").
Proof.
  intros Hcb Herr. split; [ | split ].
  - intros Ho. exists (next Undefined w). split.
    + unfold middlewareWrapper. rewrite Hcb, Herr.
      destruct (get (assign defaults options) "origin");
        try discriminate Ho; cbv beta iota; rewrite ?Ho; reflexivity.
    + split; [ reflexivity | ]. by exists Undefined.
  - intros n src f err2 origin Ho Hf He2 Hor. exists (next err2 w). split.
    + unfold middlewareWrapper. rewrite Hcb, Herr, Ho, Hf, He2, Hor. reflexivity.
    + split; [ reflexivity | ]. by exists err2.
  - intros r Hr Ho Hno Hm.
    rewrite (middlewareWrapper_static_origin o req w err options Hcb Herr)
      by (rewrite Ho; by destruct r).
    destruct (cors_reflecting r
                (<["origin" := get (assign defaults options) "origin"]> (assign defaults options))
                req w Hr) as (w' & Hc & Hl & Hv).
    + by rewrite get_insert_eq.
    + intros Hp. unfold methods_configured. rewrite get_insert_ne by done. by apply Hm.
    + exists w'. rewrite Hno in Hl. by repeat split.
Qed.

Lemma C4_falsy_origin_witness :
  (∃ w', middlewareWrapper (StaticOptions (Some {[ "origin" := Bool false ]}))
           (mkRequest (Str "OPTIONS") "/" {[ "origin" := "http://a.com" ]}) w0 = Ok w' ∧
         passed_through w0 w') ∧
  (∃ w', middlewareWrapper (StaticOptions (Some {[ "origin" := deny_all ]}))
           (mkRequest (Str "OPTIONS") "/" {[ "origin" := "http://a.com" ]}) w0 = Ok w' ∧
         passed_through w0 w') ∧
  (∃ w', middlewareWrapper (StaticOptions (Some {[ "origin" := Arr [Str "http://b.com"] ]}))
           (mkRequest (Str "OPTIONS") "/" {[ "origin" := "http://a.com" ]}) w0 = Ok w' ∧
         Str "Origin" ∈ varyLog (res w') ∧
         resHeaders (res w') !! "Access-Control-Allow-Origin" =
           resHeaders (res w0) !! "Access-Control-Allow-Origin").
Proof.
  split; [ | split ].
  - refine (proj1 (C4_falsy_origin (StaticOptions (Some {[ "origin" := Bool false ]}))
                     (mkRequest (Str "OPTIONS") "/" {[ "origin" := "http://a.com" ]}) w0
                     Null (Some {[ "origin" := Bool false ]}) eq_refl eq_refl) eq_refl).
  - refine (proj1 (proj2 (C4_falsy_origin (StaticOptions (Some {[ "origin" := deny_all ]}))
                     (mkRequest (Str "OPTIONS") "/" {[ "origin" := "http://a.com" ]}) w0
                     Null (Some {[ "origin" := deny_all ]}) eq_refl eq_refl))
                   2%nat _ _ Null (Bool false) eq_refl eq_refl eq_refl eq_refl).
  - refine (proj2 (proj2 (C4_falsy_origin (StaticOptions (Some {[ "origin" := Arr [Str "http://b.com"] ]}))
                     (mkRequest (Str "OPTIONS") "/" {[ "origin" := "http://a.com" ]}) w0
                     Null (Some {[ "origin" := Arr [Str "http://b.com"] ]}) eq_refl eq_refl))
                   (RSet [RFixed "http://b.com"]) eq_refl eq_refl eq_refl (λ _, eq_refl)).
Defined.

(** ** Max-age *)

Lemma pretty_N_go_nonempty (x : N) : ∀ s, s ≠ "" → pretty_N_go x s ≠ "".
Proof.
  induction (N.lt_wf_0 x) as [x _ IH]. intros s Hs.
  assert (x = 0 ∨ 0 < x)%N as [-> | Hpos] by lia.
  - by rewrite pretty_N_go_0.
  - rewrite pretty_N_go_step by done.
    apply IH; [ apply N.div_lt; lia | discriminate ].
Qed.

Lemma pretty_Z_nonempty (z : Z) : pretty z ≠ "".
Proof.
  assert (∀ p, pretty (Npos p) ≠ "") as Hpos.
  { intros p. unfold pretty, pretty_N.
    destruct (decide (N.pos p = 0%N)); [ discriminate | ].
    rewrite pretty_N_go_step by lia. apply pretty_N_go_nonempty. discriminate. }
  destruct z as [ | p | p ]; [ discriminate | apply Hpos | discriminate ].
Qed.

(** The string form of a number is never empty. *)
Lemma toString_number_nonempty v : is_number v = true → toString v ≠ "".
Proof.
  destruct v; try discriminate. intros _. apply pretty_Z_nonempty.
Qed.

(** [s && s.length] for a string. *)
Lemma truthy_string_length s :
  truthy (js_and (Str s) (prop_length (Str s))) = negb (String.eqb s "").
Proof. by destruct s. Qed.

Lemma configureMaxAge_emitted options :
  configureMaxAge options =
  if max_age_emitted (get options "maxAge")
  then HObj "Access-Control-Max-Age" (Str (toString (get options "maxAge")))
  else HNull.
Proof.
  unfold configureMaxAge, max_age_emitted.
  set (m := get options "maxAge").
  destruct (is_number m) eqn:Hn; [ | destruct (truthy m) eqn:Ht ].
  - replace (js_and (js_or (Bool true) m) (Str (toString m)))
      with (Str (toString m)) by reflexivity.
    rewrite truthy_string_length.
    apply toString_number_nonempty, String.eqb_neq in Hn. by rewrite Hn.
  - replace (js_and (js_or (Bool false) m) (Str (toString m)))
      with (Str (toString m)) by (unfold js_and, js_or; simpl; by rewrite Ht).
    rewrite truthy_string_length.
    by destruct (String.eqb (toString m) "").
  - replace (js_and (js_or (Bool false) m) (Str (toString m)))
      with m by (unfold js_and, js_or; simpl; by rewrite Ht).
    unfold js_and. rewrite Ht. cbv iota. by rewrite Ht.
Qed.

Lemma written_max_age_preflight options req :
  written "Access-Control-Max-Age" (HArr (preflight_headers options req)) =
  written "Access-Control-Max-Age" (configureMaxAge options).
Proof.
  unfold preflight_headers. rewrite !written_cons, written_nil.
  rewrite written_configureExposedHeaders, written_configureAllowedHeaders,
    written_methods, written_configureCredentials, written_configureOrigin by done.
  by destruct (written _ (configureMaxAge options)).
Qed.

(** C5. On a preflight request, [maxAge: 0] gives the response header
    Access-Control-Max-Age: "0".  In general the max-age primitive emits
    its directive, with the string form of [maxAge] as value, exactly when
    [maxAge] is a number or a truthy value whose string form is not empty,
    and the preflight response carries the header exactly then. *)
Theorem C5_max_age options req w :
  is_preflight req →
  methods_configured options →
  configureMaxAge options =
    (if max_age_emitted (get options "maxAge")
     then HObj "Access-Control-Max-Age" (Str (toString (get options "maxAge")))
     else HNull) ∧
  (∃ w', cors options req w = Ok w' ∧
     resHeaders (res w') !! "Access-Control-Max-Age" =
       if max_age_emitted (get options "maxAge")
       then Some (Str (toString (get options "maxAge")))
       else resHeaders (res w) !! "Access-Control-Max-Age") ∧
  (get options "maxAge" = Num 0 →
     ∃ w', cors options req w = Ok w' ∧
       resHeaders (res w') !! "Access-Control-Max-Age" = Some (Str "0")).
Proof.
  intros Hp Hm.
  assert (∃ w', cors options req w = Ok w' ∧
     resHeaders (res w') !! "Access-Control-Max-Age" =
       if max_age_emitted (get options "maxAge")
       then Some (Str (toString (get options "maxAge")))
       else resHeaders (res w) !! "Access-Control-Max-Age") as Hmain.
  { destruct (cors_effect options req w (λ _, Hm))
      as (composed & w' & _ & Hc & Hcase & Hl & _).
    exists w'. split; [ exact Hc | ].
    destruct Hcase as [ [-> _] | [_ Hn] ]; [ | by destruct Hn ].
    rewrite Hl by done.
    rewrite written_max_age_preflight, configureMaxAge_emitted.
    destruct (max_age_emitted (get options "maxAge")) eqn:He; [ | reflexivity ].
    rewrite written_HObj_eq; [ reflexivity | done | ].
    unfold max_age_emitted in He.
    destruct (is_number (get options "maxAge")) eqn:Hn.
    - apply toString_number_nonempty, String.eqb_neq in Hn. simpl. by rewrite Hn.
    - simpl in He. apply andb_true_iff in He as [_ He]. exact He. }
  split; [ apply configureMaxAge_emitted | ]. split; [ exact Hmain | ].
  intros H0. rewrite H0 in Hmain. exact Hmain.
Qed.

Lemma C5_max_age_witness :
  ∃ w', cors (<["maxAge" := Num 0]> defaults) (mkRequest (Str "OPTIONS") "/" ∅) w0 = Ok w' ∧
    resHeaders (res w') !! "Access-Control-Max-Age" = Some (Str "0").
Proof.
  refine (proj2 (proj2 (C5_max_age (<["maxAge" := Num 0]> defaults)
                          (mkRequest (Str "OPTIONS") "/" ∅) w0 eq_refl eq_refl)) eq_refl).
Defined.

(** ** Allowed headers *)

Lemma js_and_truthy a b : truthy (js_and a b) = true → truthy a = true.
Proof. unfold js_and. by destruct (truthy a) eqn:E; [ | rewrite E ]. Qed.

Lemma configureAllowedHeaders_value options req :
  configureAllowedHeaders options req =
  ((if truthy (allow_list options) then []
    else [HArr [HObj "Vary" (Str "Access-Control-Request-Headers")]]) ++
   (if truthy (js_and (allow_headers_value options req)
                      (prop_length (allow_headers_value options req)))
    then [HArr [HObj "Access-Control-Allow-Headers" (allow_headers_value options req)]]
    else []))%list.
Proof.
  unfold configureAllowedHeaders, allow_headers_value.
  fold (allow_list options).
  destruct (truthy (allow_list options)); simpl negb; cbv iota.
  - destruct (has_join (allow_list options));
      destruct (truthy (js_and _ _)); reflexivity.
  - destruct (truthy (js_and _ _)); reflexivity.
Qed.

Lemma vary_fields_configureAllowedHeaders options req :
  vary_fields (HArr (configureAllowedHeaders options req)) = allow_headers_vary options.
Proof.
  rewrite configureAllowedHeaders_value. unfold allow_headers_vary.
  destruct (truthy (allow_list options));
    destruct (truthy (js_and _ _)); reflexivity.
Qed.

Lemma written_configureAllowedHeaders_value options req :
  written "Access-Control-Allow-Headers" (HArr (configureAllowedHeaders options req)) =
  if truthy (js_and (allow_headers_value options req)
                    (prop_length (allow_headers_value options req)))
  then Some (allow_headers_value options req)
  else None.
Proof.
  rewrite configureAllowedHeaders_value.
  destruct (truthy (js_and _ _)) eqn:Hv.
  - apply js_and_truthy in Hv.
    destruct (truthy (allow_list options)); simpl app;
      rewrite ?written_cons, ?written_single, ?written_nil, written_HObj_eq;
      done.
  - by destruct (truthy (allow_list options)).
Qed.

Lemma written_allow_headers_preflight options req :
  written "Access-Control-Allow-Headers" (HArr (preflight_headers options req)) =
  written "Access-Control-Allow-Headers" (HArr (configureAllowedHeaders options req)).
Proof.
  unfold preflight_headers. rewrite !written_cons, written_nil.
  rewrite written_configureExposedHeaders, written_configureMaxAge,
    written_methods, written_configureCredentials, written_configureOrigin by done.
  by destruct (written _ (HArr (configureAllowedHeaders options req))).
Qed.

(** The Access-Control-Allow-Headers header and the Vary fields after a
    preflight. *)
Lemma cors_allow_headers options req w :
  is_preflight req →
  methods_configured options →
  ∃ w', cors options req w = Ok w' ∧
    resHeaders (res w') !! "Access-Control-Allow-Headers" =
      (if truthy (js_and (allow_headers_value options req)
                         (prop_length (allow_headers_value options req)))
       then Some (allow_headers_value options req)
       else resHeaders (res w) !! "Access-Control-Allow-Headers") ∧
    varyLog (res w') =
      (varyLog (res w) ++ vary_fields (HArr (configureOrigin options req))
         ++ allow_headers_vary options)%list.
Proof.
  intros Hp Hm.
  destruct (cors_effect options req w (λ _, Hm))
    as (composed & w' & _ & Hc & Hcase & Hl & Hv).
  exists w'. split; [ exact Hc | ].
  destruct Hcase as [ [-> _] | [_ Hn] ]; [ | by destruct Hn ].
  rewrite Hl by done. rewrite Hv.
  rewrite written_allow_headers_preflight, written_configureAllowedHeaders_value,
    vary_fields_preflight, vary_fields_configureAllowedHeaders.
  split; [ by destruct (truthy (js_and _ _)) | reflexivity ].
Qed.

(** C6. On a preflight request: without allow-list (neither
    [allowedHeaders] nor the legacy [headers]) and with a non-empty
    Access-Control-Request-Headers request header, the response header
    Access-Control-Allow-Headers is that request header verbatim and
    Access-Control-Request-Headers is merged into Vary; with an array as
    allow-list, the header is its elements joined with commas, and with a
    non-empty string the string itself; when the value so obtained is
    empty -- an absent or empty request header, an array that joins to the
    empty string -- the header is not written. *)
Theorem C6_allowed_headers options req w :
  is_preflight req →
  methods_configured options →
  (truthy (allow_list options) = false →
   ∃ w', cors options req w = Ok w' ∧
     Str "Access-Control-Request-Headers" ∈ varyLog (res w') ∧
     resHeaders (res w') !! "Access-Control-Allow-Headers" =
       match headers req !! "access-control-request-headers" with
       | Some s =>
           if String.eqb s "" then resHeaders (res w) !! "Access-Control-Allow-Headers"
           else Some (Str s)
       | None => resHeaders (res w) !! "Access-Control-Allow-Headers"
       end) ∧
  (∀ l, get options "allowedHeaders" = Arr l →
   ∃ w', cors options req w = Ok w' ∧
     resHeaders (res w') !! "Access-Control-Allow-Headers" =
       if String.eqb (join "," l) "" then resHeaders (res w) !! "Access-Control-Allow-Headers"
       else Some (Str (join "," l))) ∧
  (∀ s, get options "allowedHeaders" = Str s → s ≠ "" →
   ∃ w', cors options req w = Ok w' ∧
     resHeaders (res w') !! "Access-Control-Allow-Headers" = Some (Str s)).
Proof.
  intros Hp Hm.
  destruct (cors_allow_headers options req w Hp Hm) as (w' & Hc & Hl & Hv).
  split; [ | split ].
  - intros Hno. exists w'. split; [ exact Hc | ]. split.
    + rewrite Hv. unfold allow_headers_vary. rewrite Hno. set_solver.
    + rewrite Hl. unfold allow_headers_value, req_header. rewrite Hno.
      destruct (headers req !! "access-control-request-headers") as [ s | ];
        [ | reflexivity ].
      rewrite truthy_string_length. by destruct (String.eqb s "").
  - intros l Hal. exists w'. split; [ exact Hc | ].
    rewrite Hl. unfold allow_headers_value, allow_list, js_or. rewrite Hal.
    simpl. rewrite truthy_string_length. by destruct (String.eqb (join "," l) "").
  - intros s Hal Hs. exists w'. split; [ exact Hc | ].
    apply String.eqb_neq in Hs.
    assert (allow_headers_value options req = Str s) as Ha.
    { unfold allow_headers_value, allow_list, js_or. rewrite Hal.
      simpl truthy. rewrite Hs. simpl. by rewrite Hs. }
    rewrite Hl, Ha, truthy_string_length. by rewrite Hs.
Qed.

Lemma C6_allowed_headers_witness :
  (∃ w', cors defaults
           (mkRequest (Str "OPTIONS") "/" {[ "access-control-request-headers" := "X-Foo,X-Bar" ]})
           w0 = Ok w' ∧
     Str "Access-Control-Request-Headers" ∈ varyLog (res w') ∧
     resHeaders (res w') !! "Access-Control-Allow-Headers" = Some (Str "X-Foo,X-Bar")) ∧
  (∃ w', cors (<["allowedHeaders" := Arr [Str "X-A"; Str "X-B"]]> defaults)
           (mkRequest (Str "OPTIONS") "/" {[ "access-control-request-headers" := "X-Foo,X-Bar" ]})
           w0 = Ok w' ∧
     resHeaders (res w') !! "Access-Control-Allow-Headers" = Some (Str "X-A,X-B")).
Proof.
  split.
  - exact (proj1 (C6_allowed_headers defaults
                    (mkRequest (Str "OPTIONS") "/" {[ "access-control-request-headers" := "X-Foo,X-Bar" ]})
                    w0 eq_refl eq_refl) eq_refl).
  - exact (proj1 (proj2 (C6_allowed_headers (<["allowedHeaders" := Arr [Str "X-A"; Str "X-B"]]> defaults)
                    (mkRequest (Str "OPTIONS") "/" {[ "access-control-request-headers" := "X-Foo,X-Bar" ]})
                    w0 eq_refl eq_refl)) [Str "X-A"; Str "X-B"] eq_refl).
Defined.

(** C8. When [allowedHeaders] is absent or falsy, the allow-list is the
    legacy [headers] option: the primitive answers as if that value had
    been given as [allowedHeaders].  When [headers] is set, it is used
    instead of the request's Access-Control-Request-Headers header: the
    directives do not depend on the request, none of them is a Vary
    directive, and a preflight merges into Vary nothing but what the
    origin primitive asks for. *)
Theorem C8_legacy_headers options req w :
  truthy (get options "allowedHeaders") = false →
  configureAllowedHeaders options req =
    configureAllowedHeaders (<["allowedHeaders" := get options "headers"]> options) req ∧
  (truthy (get options "headers") = true →
   allow_headers_value options req =
     (if has_join (get options "headers") then call_join (get options "headers")
      else get options "headers") ∧
   (∀ req', configureAllowedHeaders options req' = configureAllowedHeaders options req) ∧
   vary_fields (HArr (configureAllowedHeaders options req)) = [] ∧
   (is_preflight req → methods_configured options →
    ∃ w', cors options req w = Ok w' ∧
      varyLog (res w') =
        (varyLog (res w) ++ vary_fields (HArr (configureOrigin options req)))%list ∧
      resHeaders (res w') !! "Access-Control-Allow-Headers" =
        (if truthy (js_and (allow_headers_value options req)
                           (prop_length (allow_headers_value options req)))
         then Some (allow_headers_value options req)
         else resHeaders (res w) !! "Access-Control-Allow-Headers"))).
Proof.
  intros Ha.
  assert (allow_list options = get options "headers") as Hal.
  { unfold allow_list, js_or. by rewrite Ha. }
  split.
  - unfold configureAllowedHeaders.
    rewrite get_insert_eq, get_insert_ne by done.
    fold (allow_list options). rewrite Hal.
    assert (js_or (get options "headers") (get options "headers") = get options "headers")
      as -> by (unfold js_or; by destruct (truthy (get options "headers"))).
    reflexivity.
  - intros Hh.
    assert (∀ r, allow_headers_value options r =
                 if has_join (get options "headers") then call_join (get options "headers")
                 else get options "headers") as Hval.
    { intros r. unfold allow_headers_value. by rewrite Hal, Hh. }
    split; [ apply Hval | ]. split; [ | split ].
    + intros req'. rewrite !configureAllowedHeaders_value. by rewrite !Hval.
    + rewrite vary_fields_configureAllowedHeaders. unfold allow_headers_vary.
      by rewrite Hal, Hh.
    + intros Hp Hm.
      destruct (cors_allow_headers options req w Hp Hm) as (w' & Hc & Hl & Hv).
      exists w'. split; [ exact Hc | ]. split; [ | exact Hl ].
      rewrite Hv. unfold allow_headers_vary. rewrite Hal, Hh. by rewrite app_nil_r.
Qed.

Lemma C8_legacy_headers_witness :
  ∃ w', cors (<["headers" := Arr [Str "X-A"; Str "X-B"]]> defaults)
          (mkRequest (Str "OPTIONS") "/" {[ "access-control-request-headers" := "X-Foo" ]})
          w0 = Ok w' ∧
    varyLog (res w') = [] ∧
    resHeaders (res w') !! "Access-Control-Allow-Headers" = Some (Str "X-A,X-B").
Proof.
  exact (proj2 (proj2 (proj2 (proj2 (C8_legacy_headers
           (<["headers" := Arr [Str "X-A"; Str "X-B"]]> defaults)
           (mkRequest (Str "OPTIONS") "/" {[ "access-control-request-headers" := "X-Foo" ]})
           w0 eq_refl) eq_refl))) eq_refl eq_refl).
Defined.

(** C9. On a preflight request without allow-list,
    Access-Control-Request-Headers is merged into Vary whatever the
    request; when the request carries no Access-Control-Request-Headers
    header, no Access-Control-Allow-Headers header is written. *)
Theorem C9_vary_without_request_headers options req w :
  is_preflight req →
  methods_configured options →
  truthy (allow_list options) = false →
  In (HArr [HObj "Vary" (Str "Access-Control-Request-Headers")])
     (configureAllowedHeaders options req) ∧
  ∃ w', cors options req w = Ok w' ∧
    Str "Access-Control-Request-Headers" ∈ varyLog (res w') ∧
    (headers req !! "access-control-request-headers" = None →
     written "Access-Control-Allow-Headers" (HArr (configureAllowedHeaders options req)) = None ∧
     resHeaders (res w') !! "Access-Control-Allow-Headers" =
       resHeaders (res w) !! "Access-Control-Allow-Headers").
Proof.
  intros Hp Hm Hno. split.
  - rewrite configureAllowedHeaders_value, Hno. by left.
  - destruct (cors_allow_headers options req w Hp Hm) as (w' & Hc & Hl & Hv).
    exists w'. split; [ exact Hc | ]. split.
    + rewrite Hv. unfold allow_headers_vary. rewrite Hno. set_solver.
    + intros Hnone.
      assert (allow_headers_value options req = Undefined) as Hu.
      { unfold allow_headers_value, req_header. by rewrite Hno, Hnone. }
      rewrite written_configureAllowedHeaders_value, Hl, Hu. by split.
Qed.

Lemma C9_vary_without_request_headers_witness :
  In (HArr [HObj "Vary" (Str "Access-Control-Request-Headers")])
     (configureAllowedHeaders defaults (mkRequest (Str "OPTIONS") "/" ∅)) ∧
  ∃ w', cors defaults (mkRequest (Str "OPTIONS") "/" ∅) w0 = Ok w' ∧
    Str "Access-Control-Request-Headers" ∈ varyLog (res w') ∧
    (headers (mkRequest (Str "OPTIONS") "/" ∅) !! "access-control-request-headers" = None →
     written "Access-Control-Allow-Headers"
       (HArr (configureAllowedHeaders defaults (mkRequest (Str "OPTIONS") "/" ∅))) = None ∧
     resHeaders (res w') !! "Access-Control-Allow-Headers" =
       resHeaders (res w0) !! "Access-Control-Allow-Headers").
Proof.
  apply (C9_vary_without_request_headers defaults (mkRequest (Str "OPTIONS") "/" ∅) w0).
  - reflexivity.
  - reflexivity.
  - reflexivity.
Defined.

(** ** Determinism *)

Lemma value_nested_ind (P : value → Prop) :
  (∀ v, is_array v = false → P v) →
  (∀ l, Forall P l → P (Arr l)) →
  ∀ v, P v.
Proof.
  intros HL HA.
  fix IH 1. intros v.
  destruct v as [ | | b | n | | s | s | r | l | | n src f ];
    try (apply HL; reflexivity).
  apply HA. induction l as [ | a t IHt ]; constructor; [ apply IH | exact IHt ].
Qed.

Section SameView.
Variable options : gmap string value.
Variables r1 r2 : Request.
Hypothesis Hview : view r1 = view r2.

Lemma same_method : cors_method r1 = cors_method r2.
Proof using Hview. unfold view in Hview. congruence. Qed.

Lemma same_origin_header : req_header r1 "origin" = req_header r2 "origin".
Proof using Hview.
  unfold view in Hview. unfold req_header.
  replace (headers r1 !! "origin") with (headers r2 !! "origin") by congruence.
  reflexivity.
Qed.

Lemma same_request_headers :
  req_header r1 "access-control-request-headers" =
  req_header r2 "access-control-request-headers".
Proof using Hview.
  unfold view in Hview. unfold req_header.
  replace (headers r1 !! "access-control-request-headers")
    with (headers r2 !! "access-control-request-headers") by congruence.
  reflexivity.
Qed.

Lemma configureOrigin_view :
  configureOrigin options r1 = configureOrigin options r2.
Proof using Hview. unfold configureOrigin. by rewrite same_origin_header. Qed.

Lemma configureAllowedHeaders_view :
  configureAllowedHeaders options r1 = configureAllowedHeaders options r2.
Proof using Hview. unfold configureAllowedHeaders. by rewrite same_request_headers. Qed.

Lemma cors_headers_view : cors_headers options r1 = cors_headers options r2.
Proof using Hview.
  unfold cors_headers.
  by rewrite same_method, configureOrigin_view, configureAllowedHeaders_view.
Qed.

Lemma cors_view w : cors options r1 w = cors options r2 w.
Proof using Hview. unfold cors. by rewrite cors_headers_view, same_method. Qed.

Lemma policy_after_view : policy_after options r1 = policy_after options r2.
Proof using Hview. unfold policy_after. by rewrite same_origin_header. Qed.
End SameView.

Lemma allowedOrigin_after_cons origin a t :
  allowedOrigin_after origin (Arr (a :: t)) =
  if isOriginAllowed origin a then Arr (allowedOrigin_after origin a :: t)
  else match allowedOrigin_after origin (Arr t) with
       | Arr t' => Arr (allowedOrigin_after origin a :: t')
       | _ => Arr [allowedOrigin_after origin a]
       end.
Proof. simpl. by destruct (isOriginAllowed origin a). Qed.

Lemma stateless_cons a t :
  stateless (Arr (a :: t)) = stateless a && stateless (Arr t).
Proof. reflexivity. Qed.

Lemma test_stateless r s : re_stateful r = false → (test r s).2 = r.
Proof. unfold test. intros ->. by destruct (re_exec r 0 s). Qed.

(** A call of [isOriginAllowed] leaves an allowed origin without [g] and
    [y] patterns as it was. *)
Lemma allowedOrigin_after_stateless origin v :
  stateless v = true → allowedOrigin_after origin v = v.
Proof.
  induction v as [ v Hv | l IH ] using value_nested_ind.
  - destruct v; try reflexivity; [ | discriminate Hv ].
    simpl. intros Hs. apply negb_true_iff in Hs. by rewrite test_stateless.
  - induction IH as [ | a t Ha _ IHt ]; [ reflexivity | ].
    rewrite stateless_cons. intros Hs. apply andb_true_iff in Hs as [Hsa Hst].
    rewrite allowedOrigin_after_cons, (Ha Hsa), (IHt Hst).
    by destruct (isOriginAllowed origin a).
Qed.

Lemma policy_after_stateless options req :
  stateless (get options "origin") = true → policy_after options req = options.
Proof.
  intros Hs. unfold policy_after.
  destruct (negb (truthy (get options "origin")) || strict_eq_str (get options "origin") "*")
    eqn:Hw; [ reflexivity | ].
  destruct (isString (get options "origin")); [ reflexivity | ].
  rewrite (allowedOrigin_after_stateless _ _ Hs).
  apply insert_id. unfold get in *.
  destruct (options !! "origin") as [ v | ]; [ reflexivity | discriminate Hw ].
Qed.

Lemma policy_after_all_stateless options reqs :
  stateless (get options "origin") = true → policy_after_all options reqs = options.
Proof.
  intros Hs. unfold policy_after_all.
  induction reqs as [ | r t IH ]; [ reflexivity | ].
  simpl. by rewrite (policy_after_stateless _ _ Hs).
Qed.




(** ** Origin values that are neither string, pattern nor array *)

(** C10 (amended). An origin rule that is truthy but neither a string, a
    RegExp nor an array allows every origin: [isOriginAllowed] returns
    its truthiness, true.  For every request whose Origin header is a
    non-empty string, that string is then written verbatim as
    Access-Control-Allow-Origin, and Origin is merged into Vary. *)
Theorem C10_truthy_origin options req w s :
  truthy (get options "origin") = true →
  isString (get options "origin") = false →
  is_regexp (get options "origin") = false →
  is_array (get options "origin") = false →
  (is_preflight req → methods_configured options) →
  headers req !! "origin" = Some s →
  s ≠ "" →
  (∀ origin, isOriginAllowed origin (get options "origin") = truthy (get options "origin")) ∧
  ∃ w', cors options req w = Ok w' ∧
    resHeaders (res w') !! "Access-Control-Allow-Origin" = Some (Str s) ∧
    Str "Origin" ∈ varyLog (res w').
Proof.
  intros Ht Hs Hr Ha Hm Ho Hne.
  assert (∀ origin, isOriginAllowed origin (get options "origin") =
                    truthy (get options "origin")) as Hall.
  { intros origin. destruct (get options "origin"); try discriminate; reflexivity. }
  split; [ exact Hall | ].
  destruct (cors_allow_origin options req w Hm) as (w' & Hc & Hl & more & Hv & _).
  exists w'. split; [ exact Hc | ].
  assert (configureOrigin options req =
          [HArr [HObj "Access-Control-Allow-Origin" (Str s)];
           HArr [HObj "Vary" (Str "Origin")]]) as Hco.
  { unfold configureOrigin, req_header.
    rewrite Ho, Hall, Ht, Hs. simpl negb. rewrite orb_false_l.
    destruct (get options "origin"); try discriminate; reflexivity. }
  rewrite Hco in Hl, Hv. split.
  - rewrite Hl. rewrite written_cons, !written_single.
    change (written "Access-Control-Allow-Origin" (HObj "Vary" (Str "Origin")))
      with (@None value).
    rewrite written_HObj_eq; [ reflexivity | done | ].
    simpl. apply String.eqb_neq in Hne. by rewrite Hne.
  - rewrite Hv. change (vary_fields (HArr _)) with [Str "Origin"]. set_solver.
Qed.

Lemma C10_truthy_origin_witness :
  (∀ origin, isOriginAllowed origin (get (<["origin" := Bool true]> defaults) "origin") =
             truthy (get (<["origin" := Bool true]> defaults) "origin")) ∧
  ∃ w', cors (<["origin" := Bool true]> defaults)
          (mkRequest (Str "GET") "/" {[ "origin" := "http://a.com" ]}) w0 = Ok w' ∧
    resHeaders (res w') !! "Access-Control-Allow-Origin" = Some (Str "http://a.com") ∧
    Str "Origin" ∈ varyLog (res w').
Proof.
  apply (C10_truthy_origin (<["origin" := Bool true]> defaults)
           (mkRequest (Str "GET") "/" {[ "origin" := "http://a.com" ]}) w0 "http://a.com").
  - reflexivity.
  - reflexivity.
  - reflexivity.
  - reflexivity.
  - intros _. reflexivity.
  - reflexivity.
  - discriminate.
Defined.

(** C10 as worded fails for a request that carries an empty Origin
    header: the rule [true] allows it, but the directive's value, the empty
    string, is falsy and [applyHeaders] skips it. *)
Lemma C10_counterexample :
  headers (mkRequest (Str "GET") "/" {[ "origin" := "" ]}) !! "origin" = Some "" ∧
  isOriginAllowed (req_header (mkRequest (Str "GET") "/" {[ "origin" := "" ]}) "origin")
    (get (<["origin" := Bool true]> defaults) "origin") = true ∧
  ∃ w', cors (<["origin" := Bool true]> defaults)
          (mkRequest (Str "GET") "/" {[ "origin" := "" ]}) w0 = Ok w' ∧
    resHeaders (res w') !! "Access-Control-Allow-Origin" = None.
Proof.
  split; [ reflexivity | ]. split; [ reflexivity | ].
  eexists. split; reflexivity.
Qed.


(** * Part IV: further properties of the code

    ** [applyHeaders] *)

Lemma directives_cons h t :
  directives (HArr (h :: t)) = (directives h ++ directives (HArr t))%list.
Proof. reflexivity. Qed.

Lemma applyHeader_directives h :
  ∀ res, applyHeader h res = fold_left applyDirective (directives h) res.
Proof.
  induction h as [ | k v | l IH ] using header_nested_ind; intros res.
  - reflexivity.
  - reflexivity.
  - change (applyHeader (HArr l) res) with (applyHeaders l res).
    revert res. induction IH as [ | h t Hh _ IHt ]; intros res; [ reflexivity | ].
    rewrite applyHeaders_cons, directives_cons, fold_left_app, IHt, Hh.
    reflexivity.
Qed.

(** X1. [applyHeaders] treats a nested array of directives as the flat
    list of its objects, depth first and in order, [null] entries skipped:
    applying the array is folding the one-object step over that list. *)
Theorem X1_applyHeaders_flattens (headers : list header) (res : Response) :
  applyHeaders headers res = fold_left applyDirective (directives (HArr headers)) res.
Proof. apply applyHeader_directives. Qed.

Lemma applyHeaders_app a b res :
  applyHeaders (a ++ b) res = applyHeaders b (applyHeaders a res).
Proof.
  revert res. induction a as [ | h t IH ]; intros res; [ reflexivity | ].
  change ((h :: t) ++ b)%list with (h :: (t ++ b))%list.
  by rewrite !applyHeaders_cons, IH.
Qed.

Lemma written_truthy k h v : written k h = Some v → truthy v = true.
Proof.
  revert v. induction h as [ | k' v' | l IH ] using header_nested_ind; intros v.
  - discriminate.
  - unfold written. destruct (String.eqb k' "Vary" && truthy v'); [ discriminate | ].
    destruct (truthy v') eqn:Hv; [ | discriminate ].
    destruct (String.eqb k' k); [ | discriminate ]. by intros [= <-].
  - induction IH as [ | h t Hh _ IHt ]; [ discriminate | ].
    rewrite written_cons. destruct (written k (HArr t)) as [ v0 | ].
    + intros [= <-]. by apply IHt.
    + apply Hh.
Qed.

Lemma written_Vary h : written "Vary" h = None.
Proof.
  induction h as [ | k v | l IH ] using header_nested_ind.
  - reflexivity.
  - unfold written. destruct (String.eqb_spec k "Vary") as [ -> | Hne ].
    + by destruct (truthy v).
    + simpl. by rewrite andb_false_r.
  - induction IH as [ | h t Hh _ IHt ]; [ reflexivity | ].
    by rewrite written_cons, IHt, Hh.
Qed.

(** X2. [applyHeaders] never stores a falsy value: a header other than
    Vary that the response carries afterwards either was there before or
    holds a truthy value; the status code and the number of [res.end()]
    calls are unchanged.  (The Vary header is left to [vary].) *)
Theorem X2_applyHeaders_stores_truthy (headers : list header) (res : Response) :
  (∀ k v, k ≠ "Vary" →
          resHeaders (applyHeaders headers res) !! k = Some v →
          truthy v = true ∨ resHeaders res !! k = Some v) ∧
  statusCode (applyHeaders headers res) = statusCode res ∧
  ended (applyHeaders headers res) = ended res.
Proof.
  unfold applyHeaders. split; [ | split ].
  - intros k v _. rewrite applyHeader_lookup.
    destruct (written k (HArr headers)) as [ v0 | ] eqn:Hw.
    + intros [= <-]. left. by apply (written_truthy k (HArr headers)).
    + by right.
  - apply applyHeader_statusCode.
  - apply applyHeader_ended.
Qed.

(** X3. Headers are overwritten, not appended: applying the same
    directives a second time leaves the headers of the response as they
    were after the first time (the fields are handed to [vary] again). *)
Theorem X3_applyHeaders_twice (headers : list header) (res : Response) :
  resHeaders (applyHeaders headers (applyHeaders headers res)) =
    resHeaders (applyHeaders headers res) ∧
  varyLog (applyHeaders headers (applyHeaders headers res)) =
    (varyLog res ++ vary_fields (HArr headers) ++ vary_fields (HArr headers))%list.
Proof.
  unfold applyHeaders. split.
  - apply map_eq. intros k. rewrite !applyHeader_lookup.
    by destruct (written k (HArr headers)).
  - by rewrite !applyHeader_varyLog, app_assoc.
Qed.

(** ** [isOriginAllowed] *)

Lemma origin_leaves_cons a t :
  origin_leaves (Arr (a :: t)) = (origin_leaves a ++ origin_leaves (Arr t))%list.
Proof. reflexivity. Qed.

Lemma origin_leaves_leaf v : is_array v = false → origin_leaves v = [v].
Proof. by destruct v. Qed.

Lemma isOriginAllowed_leaves origin v :
  isOriginAllowed origin v = existsb (isOriginAllowed origin) (origin_leaves v).
Proof.
  induction v as [ v Hv | l IH ] using value_nested_ind.
  - rewrite (origin_leaves_leaf v Hv). simpl. by rewrite orb_false_r.
  - induction IH as [ | a t Ha _ IHt ]; [ reflexivity | ].
    rewrite isOriginAllowed_cons, origin_leaves_cons, existsb_app, <- Ha, <- IHt.
    by destruct (isOriginAllowed origin a).
Qed.

Lemma origin_leaves_not_array v : Forall (λ a, is_array a = false) (origin_leaves v).
Proof.
  induction v as [ v Hv | l IH ] using value_nested_ind.
  - rewrite (origin_leaves_leaf v Hv). by constructor.
  - induction IH as [ | a t Ha _ IHt ]; [ constructor | ].
    rewrite origin_leaves_cons. apply Forall_app. by split.
Qed.

(** X4. Nesting of arrays in the origin option does not matter: an origin
    is allowed exactly when one of the non-array members, at any depth,
    allows it; in particular the empty array allows no origin. *)
Theorem X4_isOriginAllowed_leaves (origin allowedOrigin : value) :
  (isOriginAllowed origin allowedOrigin = true ↔
   ∃ a, a ∈ origin_leaves allowedOrigin ∧ is_array a = false ∧
        isOriginAllowed origin a = true) ∧
  isOriginAllowed origin (Arr []) = false.
Proof.
  split; [ | reflexivity ].
  rewrite isOriginAllowed_leaves, existsb_exists. split.
  - intros (a & Hin & Ha). exists a. split; [ by apply list_elem_of_In | ].
    split; [ | exact Ha ].
    pose proof (origin_leaves_not_array allowedOrigin) as Hall.
    rewrite Forall_forall in Hall. apply Hall. by apply list_elem_of_In.
  - intros (a & Hin & _ & Ha). exists a. split; [ by apply list_elem_of_In | exact Ha ].
Qed.

Lemma isOriginAllowed_app origin a b :
  isOriginAllowed origin (Arr (a ++ b)) =
  isOriginAllowed origin (Arr a) || isOriginAllowed origin (Arr b).
Proof.
  induction a as [ | x t IH ]; [ reflexivity | ].
  change ((x :: t) ++ b)%list with (x :: (t ++ b))%list.
  rewrite !isOriginAllowed_cons, IH. by destruct (isOriginAllowed origin x).
Qed.

(** X5. Lists of allowed origins combine by disjunction: the concatenation
    of two lists allows an origin exactly when one of the two does, so the
    order of the members does not change the decision, and a list with a
    single member decides as that member. *)
Theorem X5_isOriginAllowed_append (origin : value) (a b : list value) :
  isOriginAllowed origin (Arr (a ++ b)) =
    isOriginAllowed origin (Arr a) || isOriginAllowed origin (Arr b) ∧
  isOriginAllowed origin (Arr (a ++ b)) = isOriginAllowed origin (Arr (b ++ a)) ∧
  ∀ v, isOriginAllowed origin (Arr [v]) = isOriginAllowed origin v.
Proof.
  split; [ apply isOriginAllowed_app | ]. split.
  - rewrite !isOriginAllowed_app. apply orb_comm.
  - intros v. rewrite isOriginAllowed_cons. by destruct (isOriginAllowed origin v).
Qed.

(** ** The primitives through [cors] *)

(** Rewrites [written k] of the composed directives to the primitives
    that can write [k]. *)
Ltac written_frame :=
  rewrite !written_cons, written_nil;
  rewrite ?written_configureExposedHeaders, ?written_configureMaxAge,
    ?written_configureAllowedHeaders, ?written_methods,
    ?written_configureCredentials, ?written_configureOrigin by done;
  cbv iota.

Lemma vary_fields_configureOrigin options req :
  vary_fields (HArr (configureOrigin options req)) = origin_vary options.
Proof.
  unfold configureOrigin, origin_vary, origin_is_wildcard.
  destruct (negb (truthy _) || strict_eq_str _ _); [ reflexivity | ].
  by destruct (isString _).
Qed.

Lemma not_wildcard_truthy options :
  origin_is_wildcard options = false → truthy (get options "origin") = true.
Proof.
  unfold origin_is_wildcard. intros H. apply orb_false_iff in H as [H _].
  by apply negb_false_iff.
Qed.

(** X6. The Access-Control-Allow-Origin header after [cors], in full:
    '*' when the origin option is falsy or '*'; the option itself when it
    is any other string, whatever Origin the request sends; otherwise the
    request's Origin header when [isOriginAllowed] accepts it and it is
    not empty.  In the remaining case -- the origin is not allowed, or the
    request has no Origin -- the header is not written, so an origin that
    is not allowed is never echoed. *)
Theorem X6_allow_origin options req w :
  (is_preflight req → methods_configured options) →
  ∃ w', cors options req w = Ok w' ∧
    resHeaders (res w') !! "Access-Control-Allow-Origin" =
      if origin_is_wildcard options then Some (Str "*")
      else if isString (get options "origin") then Some (get options "origin")
      else if isOriginAllowed (req_header req "origin") (get options "origin")
              && truthy (req_header req "origin")
           then Some (req_header req "origin")
           else resHeaders (res w) !! "Access-Control-Allow-Origin".
Proof.
  intros Hm.
  destruct (cors_allow_origin options req w Hm) as (w' & Hc & Hl & _).
  exists w'. split; [ exact Hc | ].
  rewrite Hl. unfold configureOrigin. fold (origin_is_wildcard options).
  destruct (origin_is_wildcard options) eqn:Hw; [ reflexivity | ].
  destruct (isString (get options "origin")) eqn:Hs.
  - rewrite written_cons, !written_single.
    change (written "Access-Control-Allow-Origin" (HObj "Vary" (Str "Origin")))
      with (@None value).
    rewrite written_HObj_eq; [ reflexivity | done | by apply not_wildcard_truthy ].
  - rewrite written_cons, !written_single.
    change (written "Access-Control-Allow-Origin" (HObj "Vary" (Str "Origin")))
      with (@None value).
    destruct (isOriginAllowed (req_header req "origin") (get options "origin")); simpl andb.
    + destruct (truthy (req_header req "origin")) eqn:Ht.
      * by rewrite written_HObj_eq.
      * by rewrite written_HObj_falsy.
    + by rewrite written_HObj_falsy.
Qed.

Lemma X6_allow_origin_witness :
  ∃ w', cors (<["origin" := Str "http://a.com"]> defaults)
          (mkRequest (Str "GET") "/" {[ "origin" := "http://evil.example" ]}) w0 = Ok w' ∧
    resHeaders (res w') !! "Access-Control-Allow-Origin" = Some (Str "http://a.com").
Proof.
  assert (methods_configured (<["origin" := Str "http://a.com"]> defaults))
    as Hm by reflexivity.
  exact (X6_allow_origin (<["origin" := Str "http://a.com"]> defaults)
           (mkRequest (Str "GET") "/" {[ "origin" := "http://evil.example" ]}) w0 (λ _, Hm)).
Defined.

Lemma written_credentials_composed options req :
  written "Access-Control-Allow-Credentials" (HArr (preflight_headers options req)) =
    written "Access-Control-Allow-Credentials" (configureCredentials options) ∧
  written "Access-Control-Allow-Credentials" (HArr (actual_headers options req)) =
    written "Access-Control-Allow-Credentials" (configureCredentials options).
Proof.
  unfold preflight_headers, actual_headers.
  split; written_frame;
    by destruct (written _ (configureCredentials options)).
Qed.

(** X7. Access-Control-Allow-Credentials is written, with the value
    "true", exactly when the [credentials] option is the boolean [true];
    for any other value, truthy ones included, [cors] leaves that header
    alone, so it never sends "false". *)
Theorem X7_credentials options req w :
  (is_preflight req → methods_configured options) →
  ∃ w', cors options req w = Ok w' ∧
    resHeaders (res w') !! "Access-Control-Allow-Credentials" =
      match get options "credentials" with
      | Bool true => Some (Str "true")
      | _ => resHeaders (res w) !! "Access-Control-Allow-Credentials"
      end.
Proof.
  intros Hm.
  destruct (cors_effect options req w Hm) as (composed & w' & _ & Hc & Hcase & Hl & _).
  exists w'. split; [ exact Hc | ].
  rewrite Hl by done.
  destruct (written_credentials_composed options req) as [Hp Ha].
  assert (written "Access-Control-Allow-Credentials" (HArr composed) =
          written "Access-Control-Allow-Credentials" (configureCredentials options)) as ->.
  { by destruct Hcase as [ [-> _] | [-> _] ]. }
  unfold configureCredentials.
  destruct (get options "credentials") as [ | | [ | ] | | | | | | | | ]; reflexivity.
Qed.

Lemma X7_credentials_witness :
  ∃ w', cors (<["credentials" := Str "true"]> defaults)
          (mkRequest (Str "OPTIONS") "/" ∅) w0 = Ok w' ∧
    resHeaders (res w') !! "Access-Control-Allow-Credentials" =
      match get (<["credentials" := Str "true"]> defaults) "credentials" with
      | Bool true => Some (Str "true")
      | _ => resHeaders (res w0) !! "Access-Control-Allow-Credentials"
      end.
Proof.
  apply (X7_credentials (<["credentials" := Str "true"]> defaults)
           (mkRequest (Str "OPTIONS") "/" ∅) w0).
  intros _. reflexivity.
Defined.

Lemma written_methods_preflight options req :
  written "Access-Control-Allow-Methods" (HArr (preflight_headers options req)) =
  if truthy (joined (get options "methods")) then Some (joined (get options "methods"))
  else None.
Proof.
  unfold preflight_headers. written_frame. fold (joined (get options "methods")).
  destruct (truthy (joined (get options "methods"))) eqn:Ht.
  - by rewrite written_HObj_eq.
  - by rewrite written_HObj_falsy.
Qed.

(** X8. On a preflight, Access-Control-Allow-Methods is the [methods]
    option, an array being joined with commas; when that value is falsy
    (the empty string, an array that joins to it) the header is not
    written. *)
Theorem X8_methods options req w :
  is_preflight req →
  methods_configured options →
  ∃ w', cors options req w = Ok w' ∧
    resHeaders (res w') !! "Access-Control-Allow-Methods" =
      (if truthy (joined (get options "methods"))
       then Some (joined (get options "methods"))
       else resHeaders (res w) !! "Access-Control-Allow-Methods") ∧
    (∀ l, get options "methods" = Arr l →
          joined (get options "methods") = Str (join "," l)).
Proof.
  intros Hp Hm.
  destruct (cors_effect options req w (λ _, Hm)) as (composed & w' & _ & Hc & Hcase & Hl & _).
  exists w'. split; [ exact Hc | ].
  destruct Hcase as [ [-> _] | [_ Hn] ]; [ | by destruct Hn ].
  split.
  - rewrite Hl by done. rewrite written_methods_preflight.
    by destruct (truthy (joined (get options "methods"))).
  - intros l ->. reflexivity.
Qed.

Lemma X8_methods_witness :
  ∃ w', cors (<["methods" := Arr [Str "GET"; Str "POST"]]> defaults)
          (mkRequest (Str "OPTIONS") "/" ∅) w0 = Ok w' ∧
    resHeaders (res w') !! "Access-Control-Allow-Methods" = Some (Str "GET,POST").
Proof.
  assert (is_preflight (mkRequest (Str "OPTIONS") "/" ∅)) as Hp by reflexivity.
  assert (methods_configured (<["methods" := Arr [Str "GET"; Str "POST"]]> defaults))
    as Hm by reflexivity.
  destruct (X8_methods (<["methods" := Arr [Str "GET"; Str "POST"]]> defaults)
              (mkRequest (Str "OPTIONS") "/" ∅) w0 Hp Hm)
    as (w' & Hc & Hl & _).
  exists w'. split; [ exact Hc | exact Hl ].
Defined.

Lemma configureExposedHeaders_joined options :
  configureExposedHeaders options =
  if truthy (get options "exposedHeaders") &&
     truthy (js_and (joined (get options "exposedHeaders"))
                    (prop_length (joined (get options "exposedHeaders"))))
  then HObj "Access-Control-Expose-Headers" (joined (get options "exposedHeaders"))
  else HNull.
Proof.
  unfold configureExposedHeaders, joined.
  by destruct (truthy (get options "exposedHeaders")).
Qed.

Lemma written_exposed_composed options req :
  written "Access-Control-Expose-Headers" (HArr (preflight_headers options req)) =
    written "Access-Control-Expose-Headers" (configureExposedHeaders options) ∧
  written "Access-Control-Expose-Headers" (HArr (actual_headers options req)) =
    written "Access-Control-Expose-Headers" (configureExposedHeaders options).
Proof.
  unfold preflight_headers, actual_headers.
  split; written_frame;
    by destruct (written _ (configureExposedHeaders options)).
Qed.

(** X9. Access-Control-Expose-Headers is written on both paths, preflight
    and actual: an array is joined with commas, a non-empty string is
    taken as it is; when [exposedHeaders] is falsy or the array joins to
    the empty string, the header is not written. *)
Theorem X9_exposed_headers options req w :
  (is_preflight req → methods_configured options) →
  ∃ w', cors options req w = Ok w' ∧
    (∀ l, get options "exposedHeaders" = Arr l →
       resHeaders (res w') !! "Access-Control-Expose-Headers" =
         if String.eqb (join "," l) ""
         then resHeaders (res w) !! "Access-Control-Expose-Headers"
         else Some (Str (join "," l))) ∧
    (∀ s, get options "exposedHeaders" = Str s → s ≠ "" →
       resHeaders (res w') !! "Access-Control-Expose-Headers" = Some (Str s)) ∧
    (truthy (get options "exposedHeaders") = false →
       resHeaders (res w') !! "Access-Control-Expose-Headers" =
         resHeaders (res w) !! "Access-Control-Expose-Headers").
Proof.
  intros Hm.
  destruct (cors_effect options req w Hm) as (composed & w' & _ & Hc & Hcase & Hl & _).
  exists w'. split; [ exact Hc | ].
  destruct (written_exposed_composed options req) as [Hp Ha].
  assert (written "Access-Control-Expose-Headers" (HArr composed) =
          written "Access-Control-Expose-Headers" (configureExposedHeaders options)) as Hw.
  { by destruct Hcase as [ [-> _] | [-> _] ]. }
  rewrite Hl by done. rewrite Hw, configureExposedHeaders_joined.
  split; [ | split ].
  - intros l ->. unfold joined. simpl has_join. cbv iota. simpl call_join.
    rewrite truthy_string_length. simpl andb.
    destruct (String.eqb (join "," l) "") eqn:He; simpl negb; cbv iota.
    + reflexivity.
    + rewrite written_HObj_eq; [ reflexivity | done | ]. simpl. by rewrite He.
  - intros s -> Hs. apply String.eqb_neq in Hs.
    unfold joined. simpl has_join. cbv iota.
    rewrite truthy_string_length. simpl truthy. rewrite Hs.
    simpl andb. cbv iota.
    rewrite written_HObj_eq; [ reflexivity | done | ]. simpl. by rewrite Hs.
  - intros ->. reflexivity.
Qed.

Lemma X9_exposed_headers_witness :
  ∃ w', cors (<["exposedHeaders" := Arr [Str "X-A"; Str "X-B"]]> defaults)
          (mkRequest (Str "OPTIONS") "/" ∅) w0 = Ok w' ∧
    resHeaders (res w') !! "Access-Control-Expose-Headers" = Some (Str "X-A,X-B").
Proof.
  assert (methods_configured (<["exposedHeaders" := Arr [Str "X-A"; Str "X-B"]]> defaults))
    as Hm by reflexivity.
  destruct (X9_exposed_headers (<["exposedHeaders" := Arr [Str "X-A"; Str "X-B"]]> defaults)
              (mkRequest (Str "OPTIONS") "/" ∅) w0 (λ _, Hm))
    as (w' & Hc & Hl & _).
  exists w'. split; [ exact Hc | exact (Hl [Str "X-A"; Str "X-B"] eq_refl) ].
Defined.

(** ** The two paths *)

Lemma written_preflight_only_actual options req k :
  k ≠ "Access-Control-Allow-Origin" →
  k ≠ "Access-Control-Allow-Credentials" →
  k ≠ "Access-Control-Expose-Headers" →
  written k (HArr (actual_headers options req)) = None.
Proof.
  intros H1 H2 H3. unfold actual_headers. written_frame. reflexivity.
Qed.

(** X10. A request that is not a preflight is always handed on: [cors]
    returns, the continuation is called exactly once, without argument and
    after the directives were applied, the response is not ended and its
    status code is untouched; none of the preflight headers
    (Access-Control-Allow-Methods, Access-Control-Allow-Headers,
    Access-Control-Max-Age, Content-Length) is written, and nothing but
    what the origin primitive asks for is merged into Vary. *)
Theorem X10_actual_path options req w :
  ¬ is_preflight req →
  ∃ w', cors options req w = Ok w' ∧
    nextLog w' = (nextLog w ++ [ {| next_arg := Undefined; next_seen := res w' |} ])%list ∧
    statusCode (res w') = statusCode (res w) ∧
    ended (res w') = ended (res w) ∧
    varyLog (res w') = (varyLog (res w) ++ origin_vary options)%list ∧
    ∀ k, k ∈ ["Access-Control-Allow-Methods"; "Access-Control-Allow-Headers";
              "Access-Control-Max-Age"; "Content-Length"] →
         resHeaders (res w') !! k = resHeaders (res w) !! k.
Proof.
  intros Hn. eexists. split; [ by apply cors_actual | ]. simpl.
  split; [ reflexivity | ].
  split; [ apply applyHeader_statusCode | ].
  split; [ apply applyHeader_ended | ].
  split.
  - unfold applyHeaders.
    by rewrite applyHeader_varyLog, vary_fields_actual, vary_fields_configureOrigin.
  - intros k Hk. unfold applyHeaders. rewrite applyHeader_lookup.
    rewrite written_preflight_only_actual; [ reflexivity | | | ];
      intros Heq; rewrite Heq in Hk;
      apply list_elem_of_In in Hk; simpl in Hk; intuition discriminate.
Qed.

Lemma X10_actual_path_witness :
  ∃ w', cors (<["maxAge" := Num 600]> defaults)
          (mkRequest (Str "POST") "/" {[ "origin" := "http://a.com" ]}) w0 = Ok w' ∧
    nextLog w' = (nextLog w0 ++ [ {| next_arg := Undefined; next_seen := res w' |} ])%list ∧
    statusCode (res w') = statusCode (res w0) ∧
    ended (res w') = ended (res w0) ∧
    varyLog (res w') = (varyLog (res w0) ++ origin_vary (<["maxAge" := Num 600]> defaults))%list ∧
    ∀ k, k ∈ ["Access-Control-Allow-Methods"; "Access-Control-Allow-Headers";
              "Access-Control-Max-Age"; "Content-Length"] →
         resHeaders (res w') !! k = resHeaders (res w0) !! k.
Proof.
  apply (X10_actual_path (<["maxAge" := Num 600]> defaults)
           (mkRequest (Str "POST") "/" {[ "origin" := "http://a.com" ]}) w0).
  unfold is_preflight. discriminate.
Defined.

(** X11. What a preflight merges into Vary, and in which order: Origin
    unless the origin option is the wildcard (falsy or '*'), then
    Access-Control-Request-Headers unless an allow-list is configured;
    nothing else. *)
Theorem X11_preflight_vary options req w :
  is_preflight req →
  methods_configured options →
  ∃ w', cors options req w = Ok w' ∧
    varyLog (res w') =
      (varyLog (res w) ++ origin_vary options ++ allow_headers_vary options)%list.
Proof.
  intros Hp Hm.
  destruct (cors_allow_headers options req w Hp Hm) as (w' & Hc & _ & Hv).
  exists w'. split; [ exact Hc | ].
  by rewrite Hv, vary_fields_configureOrigin.
Qed.

Lemma X11_preflight_vary_witness :
  ∃ w', cors (<["origin" := Str "http://a.com"]> defaults)
          (mkRequest (Str "OPTIONS") "/" ∅) w0 = Ok w' ∧
    varyLog (res w') = [Str "Origin"; Str "Access-Control-Request-Headers"].
Proof.
  assert (is_preflight (mkRequest (Str "OPTIONS") "/" ∅)) as Hp by reflexivity.
  assert (methods_configured (<["origin" := Str "http://a.com"]> defaults))
    as Hm by reflexivity.
  exact (X11_preflight_vary (<["origin" := Str "http://a.com"]> defaults)
           (mkRequest (Str "OPTIONS") "/" ∅) w0 Hp Hm).
Defined.

Lemma written_unknown_name options req k :
  k ∉ cors_header_names →
  written k (HArr (preflight_headers options req)) = None ∧
  written k (HArr (actual_headers options req)) = None.
Proof.
  intros Hk.
  assert (k ≠ "Access-Control-Allow-Origin" ∧
          k ≠ "Access-Control-Allow-Credentials" ∧
          k ≠ "Access-Control-Allow-Methods" ∧
          k ≠ "Access-Control-Allow-Headers" ∧
          k ≠ "Access-Control-Max-Age" ∧
          k ≠ "Access-Control-Expose-Headers") as (H1 & H2 & H3 & H4 & H5 & H6).
  { unfold cors_header_names in Hk.
    repeat split; intros Heq; apply Hk; rewrite Heq;
      apply list_elem_of_In; simpl; tauto. }
  unfold preflight_headers, actual_headers. split; written_frame; reflexivity.
Qed.

(** X12. [cors] writes no header but its own: a header of the response
    under any name other than Vary, the six Access-Control names and
    Content-Length is after [cors] what it was before. *)
Theorem X12_only_cors_headers options req w :
  (is_preflight req → methods_configured options) →
  ∃ w', cors options req w = Ok w' ∧
    ∀ k, k ∉ cors_header_names → resHeaders (res w') !! k = resHeaders (res w) !! k.
Proof.
  intros Hm.
  destruct (cors_effect options req w Hm) as (composed & w' & _ & Hc & Hcase & Hl & _).
  exists w'. split; [ exact Hc | ].
  intros k Hk.
  rewrite Hl
    by (intros Heq; apply Hk; rewrite Heq; apply list_elem_of_In; simpl; tauto).
  destruct (written_unknown_name options req k Hk) as [Hp Ha].
  destruct Hcase as [ [-> _] | [-> _] ]; by rewrite ?Hp, ?Ha.
Qed.

Lemma X12_only_cors_headers_witness :
  ∃ w', cors defaults (mkRequest (Str "OPTIONS") "/" ∅)
          (on_res (setHeader "Cache-Control" (Str "no-store")) w0) = Ok w' ∧
    resHeaders (res w') !! "Cache-Control" = Some (Str "no-store").
Proof.
  assert (methods_configured defaults) as Hm by reflexivity.
  destruct (X12_only_cors_headers defaults (mkRequest (Str "OPTIONS") "/" ∅)
              (on_res (setHeader "Cache-Control" (Str "no-store")) w0) (λ _, Hm))
    as (w' & Hc & Hk).
  exists w'. split; [ exact Hc | ].
  rewrite Hk; [ reflexivity | ].
  unfold cors_header_names. rewrite !elem_of_cons, elem_of_nil.
  intros H. by repeat destruct H as [ H | H ].
Defined.

(** ** The resolver *)

(** With an origin callback that delivers a truthy origin and no error,
    the middleware runs [cors] with that origin in place of the
    callback. *)
Lemma middlewareWrapper_dynamic_origin o req w err options n src f err2 origin :
  optionsCallback o req = Some (err, options) →
  truthy err = false →
  get (assign defaults options) "origin" = Fun n src f →
  f (headers req !! "origin") = Some (err2, origin) →
  truthy err2 = false →
  truthy origin = true →
  middlewareWrapper o req w =
  cors (<["origin" := origin]> (assign defaults options)) req w.
Proof.
  intros Hcb Herr Ho Hf He2 Hor. unfold middlewareWrapper.
  by rewrite Hcb, Herr, Ho, Hf, He2, Hor.
Qed.

(** X14. Errors go to the continuation unchanged and stop the handling: an
    error from the options callback, or from the origin callback (even
    when it delivers an origin along with it), is passed to [next] as it
    is, [cors] is not run and the response is left untouched, on a
    preflight as on any other request. *)
Theorem X14_errors_to_next o req w err options :
  optionsCallback o req = Some (err, options) →
  (truthy err = true →
     middlewareWrapper o req w =
     Ok {| res := res w;
           nextLog := (nextLog w ++ [ {| next_arg := err; next_seen := res w |} ])%list |}) ∧
  (truthy err = false →
   ∀ n src f err2 origin,
     get (assign defaults options) "origin" = Fun n src f →
     f (headers req !! "origin") = Some (err2, origin) →
     truthy err2 = true →
     middlewareWrapper o req w =
     Ok {| res := res w;
           nextLog := (nextLog w ++ [ {| next_arg := err2; next_seen := res w |} ])%list |}).
Proof.
  intros Hcb. split.
  - intros Herr. unfold middlewareWrapper. by rewrite Hcb, Herr.
  - intros Herr n src f err2 origin Ho Hf He2.
    unfold middlewareWrapper. by rewrite Hcb, Herr, Ho, Hf, He2.
Qed.

Lemma X14_errors_to_next_witness :
  middlewareWrapper (OptionsCallback (λ _, Some (Str "boom", None)))
    (mkRequest (Str "OPTIONS") "/" ∅) w0 =
    Ok {| res := res w0;
          nextLog := (nextLog w0 ++ [ {| next_arg := Str "boom"; next_seen := res w0 |} ])%list |} ∧
  middlewareWrapper (StaticOptions (Some {[ "origin" := failing_origin ]}))
    (mkRequest (Str "OPTIONS") "/" ∅) w0 =
    Ok {| res := res w0;
          nextLog := (nextLog w0 ++ [ {| next_arg := Str "denied"; next_seen := res w0 |} ])%list |}.
Proof.
  split.
  - exact (proj1 (X14_errors_to_next (OptionsCallback (λ _, Some (Str "boom", None)))
                    (mkRequest (Str "OPTIONS") "/" ∅) w0 (Str "boom") None eq_refl)
                 eq_refl).
  - exact (proj2 (X14_errors_to_next (StaticOptions (Some {[ "origin" := failing_origin ]}))
                    (mkRequest (Str "OPTIONS") "/" ∅) w0 Null
                    (Some {[ "origin" := failing_origin ]}) eq_refl)
                 eq_refl 2%nat _ _ (Str "denied") (Str "*") eq_refl eq_refl eq_refl).
Defined.

Lemma assign_insert k v (o : gmap string value) :
  assign defaults (Some (<[k := v]> o)) = <[k := v]> (assign defaults (Some o)).
Proof. unfold assign. by rewrite insert_union_l. Qed.

(** X15. An origin callback is transparent: when it hands a truthy origin
    that is not itself a function to its callback, without error, the
    request is handled exactly as under static options that hold that
    origin in place of the callback. *)
Theorem X15_origin_callback_as_static (o : gmap string value) req w n src f err2 origin :
  f (headers req !! "origin") = Some (err2, origin) →
  truthy err2 = false →
  truthy origin = true →
  is_function origin = false →
  middlewareWrapper (StaticOptions (Some (<["origin" := Fun n src f]> o))) req w =
  middlewareWrapper (StaticOptions (Some (<["origin" := origin]> o))) req w.
Proof.
  intros Hf He2 Hor Hfun.
  rewrite (middlewareWrapper_dynamic_origin
             (StaticOptions (Some (<["origin" := Fun n src f]> o))) req w
             Null (Some (<["origin" := Fun n src f]> o)) n src f err2 origin);
    try done; [ | by rewrite assign_insert, get_insert_eq ].
  rewrite (middlewareWrapper_static_origin
             (StaticOptions (Some (<["origin" := origin]> o))) req w
             Null (Some (<["origin" := origin]> o)));
    try done; try (by rewrite assign_insert, get_insert_eq).
  rewrite !assign_insert, get_insert_eq. by rewrite !insert_insert_eq.
Qed.

Lemma X15_origin_callback_as_static_witness :
  middlewareWrapper (StaticOptions (Some (<["origin" := allow_a_com]> ∅)))
    (mkRequest (Str "GET") "/" {[ "origin" := "http://a.com" ]}) w0 =
  middlewareWrapper (StaticOptions (Some (<["origin" := Arr [Str "http://a.com"]]> ∅)))
    (mkRequest (Str "GET") "/" {[ "origin" := "http://a.com" ]}) w0.
Proof.
  apply (X15_origin_callback_as_static ∅
           (mkRequest (Str "GET") "/" {[ "origin" := "http://a.com" ]}) w0
           2 "function (origin, cb) { cb(null, ['http://a.com']); }"
           (λ _, Some (Null, Arr [Str "http://a.com"])) Null (Arr [Str "http://a.com"])).
  - reflexivity.
  - reflexivity.
  - reflexivity.
  - reflexivity.
Defined.

(** [cors] either hands the request on or answers it. *)
Lemma cors_outcome options req w :
  (is_preflight req → methods_configured options) →
  ∃ w', cors options req w = Ok w' ∧
    (handed_on w w' ∨
     answered w w' ∧ is_preflight req ∧ truthy (get options "preflightContinue") = false).
Proof.
  intros Hm. destruct (is_preflight_dec req) as [ Hp | Hn ].
  - eexists. split; [ by apply cors_preflight; [ | apply Hm ] | ]. cbv zeta.
    destruct (truthy (get options "preflightContinue")) eqn:Hpc.
    + left. split; [ apply applyHeader_ended | by exists Undefined ].
    + right. split; [ | by split ]. split; [ | reflexivity ].
      simpl. f_equal. apply applyHeader_ended.
  - eexists. split; [ by apply cors_actual | ].
    left. split; [ apply applyHeader_ended | by exists Undefined ].
Qed.

Lemma outcomes_exclusive w w' :
  ¬ (w' = w ∧ handed_on w w') ∧
  ¬ (w' = w ∧ answered w w') ∧
  ¬ (handed_on w w' ∧ answered w w').
Proof.
  split; [ | split ].
  - intros [-> [_ [arg Hlog]]].
    apply (f_equal (@List.length NextCall)) in Hlog.
    rewrite length_app in Hlog. simpl in Hlog. lia.
  - intros [-> [Hend _]]. lia.
  - intros [[Hsame _] [Hend _]]. lia.
Qed.



Lemma middlewareWrapper_no_options req w :
  middlewareWrapper (StaticOptions None) req w = cors defaults req w.
Proof.
  rewrite (middlewareWrapper_static_origin (StaticOptions None) req w Null None)
    by reflexivity.
  reflexivity.
Qed.

(** X17. The middleware built without options.  Every request gets
    Access-Control-Allow-Origin: *.  A preflight is answered: status 204,
    Content-Length "0", Access-Control-Allow-Methods
    GET,HEAD,PUT,PATCH,POST,DELETE, the request's non-empty
    Access-Control-Request-Headers reflected as
    Access-Control-Allow-Headers, Access-Control-Request-Headers merged
    into Vary and nothing else, the response ended once and the
    continuation not called.  Any other request is handed on with its
    status code untouched and nothing merged into Vary. *)
Theorem X17_no_options req w :
  ∃ w', middlewareWrapper (StaticOptions None) req w = Ok w' ∧
    resHeaders (res w') !! "Access-Control-Allow-Origin" = Some (Str "*") ∧
    (is_preflight req →
       answered w w' ∧
       statusCode (res w') = Num 204 ∧
       resHeaders (res w') !! "Content-Length" = Some (Str "0") ∧
       resHeaders (res w') !! "Access-Control-Allow-Methods" =
         Some (Str "GET,HEAD,PUT,PATCH,POST,DELETE") ∧
       resHeaders (res w') !! "Access-Control-Allow-Headers" =
         match headers req !! "access-control-request-headers" with
         | Some s =>
             if String.eqb s "" then resHeaders (res w) !! "Access-Control-Allow-Headers"
             else Some (Str s)
         | None => resHeaders (res w) !! "Access-Control-Allow-Headers"
         end ∧
       varyLog (res w') = (varyLog (res w) ++ [Str "Access-Control-Request-Headers"])%list) ∧
    (¬ is_preflight req →
       handed_on w w' ∧
       statusCode (res w') = statusCode (res w) ∧
       varyLog (res w') = varyLog (res w)).
Proof.
  rewrite middlewareWrapper_no_options.
  assert (configureOrigin defaults req =
          [HArr [HObj "Access-Control-Allow-Origin" (Str "*")]]) as Hco by reflexivity.
  assert (methods_configured defaults) as Hm by reflexivity.
  destruct (is_preflight_dec req) as [ Hp | Hn ].
  - rewrite (cors_preflight defaults req w Hp Hm).
    change (truthy (get defaults "preflightContinue")) with false.
    change (get defaults "optionsSuccessStatus") with (Num 204).
    cbv zeta iota.
    pose proof (λ k, applyHeader_lookup (HArr (preflight_headers defaults req)) k (res w)) as Hl.
    pose proof (applyHeader_varyLog (HArr (preflight_headers defaults req)) (res w)) as Hv.
    pose proof (applyHeader_ended (HArr (preflight_headers defaults req)) (res w)) as He.
    unfold on_res at 4. cbn [res nextLog]. unfold applyHeaders.
    set (applied := applyHeader (HArr (preflight_headers defaults req)) (res w)) in *.
    eexists. split; [ reflexivity | ].
    cbn [on_res res nextLog setStatusCode setHeader end_ statusCode resHeaders varyLog ended].
    split; [ | split; [ | by intros Hn; destruct Hn ] ].
    + rewrite lookup_insert_ne by done.
      by rewrite Hl, written_allow_origin_preflight, Hco.
    + intros _. split; [ | split; [ | split; [ | split; [ | split ] ] ] ].
      * unfold answered.
        cbn [on_res res nextLog setStatusCode setHeader end_ ended].
        split; [ by rewrite He | reflexivity ].
      * reflexivity.
      * apply lookup_insert_eq.
      * rewrite lookup_insert_ne by done.
        by rewrite Hl, written_methods_preflight.
      * rewrite lookup_insert_ne by done.
        rewrite Hl, written_allow_headers_preflight,
          written_configureAllowedHeaders_value.
        change (allow_headers_value defaults req)
          with (req_header req "access-control-request-headers").
        unfold req_header.
        destruct (headers req !! "access-control-request-headers") as [ s | ];
          [ | reflexivity ].
        rewrite truthy_string_length. by destruct (String.eqb s "").
      * by rewrite Hv, vary_fields_preflight,
          vary_fields_configureAllowedHeaders, Hco.
  - rewrite (cors_actual defaults req w Hn).
    pose proof (λ k, applyHeader_lookup (HArr (actual_headers defaults req)) k (res w)) as Hl.
    pose proof (applyHeader_varyLog (HArr (actual_headers defaults req)) (res w)) as Hv.
    pose proof (applyHeader_ended (HArr (actual_headers defaults req)) (res w)) as He.
    pose proof (applyHeader_statusCode (HArr (actual_headers defaults req)) (res w)) as Hs.
    unfold on_res. cbn [res nextLog]. unfold applyHeaders.
    set (applied := applyHeader (HArr (actual_headers defaults req)) (res w)) in *.
    eexists. split; [ reflexivity | ].
    cbn [next res nextLog].
    split; [ | split; [ by intros Hp; destruct Hn | ] ].
    + by rewrite Hl, written_allow_origin_actual, Hco.
    + intros _. split; [ | split ].
      * unfold handed_on. cbn [next res nextLog].
        split; [ exact He | by exists Undefined ].
      * exact Hs.
      * rewrite Hv, vary_fields_actual, Hco. by rewrite app_nil_r.
Qed.
